(** * Streaming shot-change detection client
    (ingestion/client/python/streaming_shot_detection.py)

    A shallow embedding of the two functions of the script, [stream] and
    [streaming_annotate], and of the parts of the Python runtime and of the
    client library they rest on, followed by the properties of the chunk
    producer, of the outbound request sequence, of the response loop and of
    the printed output.

    The runtime is the one the script is written for: Python 2.7 (it imports
    [print_function] from [__future__]) on a POSIX system, where [open(path)]
    gives a file object whose [read(size)] returns the bytes of the file
    unchanged, and where the text of a float in ['{}'.format(x)] is [str(x)].
    The client library and the remote service are outside the script: they
    enter as an [Environment], over which the properties quantify. *)

From Stdlib Require Import ZArith Bool String Ascii List Lia.
From Stdlib Require Import SpecFloat DecimalString.
Import ListNotations.

Local Open Scope Z_scope.

(** ** Byte strings and file-like objects *)

(** What [file_object.read] returns: a Python 2 [str], a sequence of bytes. *)
Abbreviation bytes := (list Byte.byte).

(** Python's [len(data)], an unbounded integer. *)
Definition len {A : Type} (l : list A) : Z := Z.of_nat (length l).

(** Truth value of a sequence: [not data] holds of the empty one only. *)
Definition not_ {A : Type} (data : list A) : bool :=
  match data with
  | [] => true
  | _ :: _ => false
  end.

(** [stream] only calls [file_object.read(chunk_size)]: any object with that
    method will do.  A read returns the data and leaves the object in a new
    state (its cursor has moved). *)
Class FileLike (F : Type) := { read : F -> Z -> bytes * F }.

(** ** The chunk producer: [stream]

    A generator object is a suspended frame.  The frame of [stream] holds
    [file_object] and [chunk_size]; it is either alive (not started, or
    paused at the [yield]) or has returned. *)
Inductive generator (F : Type) : Type :=
| Suspended (file_object : F) (chunk_size : Z)
| Returned (file_object : F).
Arguments Suspended {F} file_object chunk_size.
Arguments Returned {F} file_object.

Section Stream.
Context {F : Type} `{FileLike F}.

(** Calling [stream(file_object, chunk_size)] runs nothing: it builds the
    generator. *)
Definition stream (file_object : F) (chunk_size : Z) : generator F :=
  Suspended file_object chunk_size.

(** One resumption ([next]): the body of the [while True] loop up to the
    [yield] or the [break].  [None] is StopIteration. *)
Definition next (g : generator F) : option bytes * generator F :=
  match g with
  | Suspended file_object chunk_size =>
      let (data, file_object') := read file_object chunk_size in
      if not_ data then (None, Returned file_object')
      else (Some data, Suspended file_object' chunk_size)
  | Returned file_object => (None, Returned file_object)
  end.

(** The data returned by the [k]-th read of [chunk_size] bytes, counting
    from 0, in a run of reads that starts from [file_object]. *)
Fixpoint nth_read (k : nat) (file_object : F) (chunk_size : Z) : bytes :=
  match k with
  | O => fst (read file_object chunk_size)
  | S k' => nth_read k' (snd (read file_object chunk_size)) chunk_size
  end.
End Stream.

(** ** Consumers of an iterator

    An iterator is a state [g] and a step [step g], which gives the next
    item, or [None] for StopIteration, and the state after it. *)
Section Iterators.
Context {G A : Type} (step : G -> option A * G).

(** A consumer that asks for at most [n] items and stops asking at the
    first StopIteration. *)
Fixpoint pull (n : nat) (g : G) : list A * G :=
  match n with
  | O => ([], g)
  | S n' =>
      match step g with
      | (Some a, g') => let (rest, g'') := pull n' g' in (a :: rest, g'')
      | (None, g') => ([], g')
      end
  end.

(** A consumer that iterates until StopIteration ([for a in g]).  The
    [while True] of [stream] has no bound of its own, so the iteration is
    given one: [None] when [fuel] steps did not reach StopIteration. *)
Fixpoint exhaust (fuel : nat) (g : G) : option (list A * G) :=
  match fuel with
  | O => None
  | S fuel' =>
      match step g with
      | (Some a, g') =>
          match exhaust fuel' g' with
          | Some (rest, g'') => Some (a :: rest, g'')
          | None => None
          end
      | (None, g') => Some ([], g')
      end
  end.
End Iterators.

(** ** Regular files

    An open regular file: its bytes and the cursor.  [read(size)] returns
    the [size] bytes at the cursor, or what is left when there are fewer,
    and everything left when [size] is negative. *)
Record file := mkfile { content : bytes; pos : nat }.

Definition remaining (f : file) : bytes := skipn (pos f) (content f).

Definition file_read (f : file) (size : Z) : bytes * file :=
  let data :=
    if size <? 0 then remaining f
    else firstn (Z.to_nat size) (remaining f) in
  (data, {| content := content f; pos := pos f + length data |}).

#[export] Instance file_FileLike : FileLike file := {| read := file_read |}.

(** A file just opened: the cursor is at the start. *)
Definition opened (b : bytes) : file := {| content := b; pos := 0 |}.

(** The ceiling of n / c, for c > 0. *)
Definition ceil_div (n c : Z) : Z := (n + c - 1) / c.


(** ** Messages of the streaming API

    The fields the script touches, named as in the client library. *)

Inductive StreamingFeature : Type :=
| STREAMING_FEATURE_UNSPECIFIED
| STREAMING_LABEL_DETECTION
| STREAMING_SHOT_CHANGE_DETECTION
| STREAMING_EXPLICIT_CONTENT_DETECTION
| STREAMING_OBJECT_TRACKING.

Record StreamingVideoConfig := { feature : StreamingFeature }.

(** A request carries either the configuration or a chunk of content. *)
Inductive StreamingAnnotateVideoRequest : Type :=
| video_config (config : StreamingVideoConfig)
| input_content (chunk : bytes).

(** A time offset: whole seconds and nanoseconds, both integers. *)
Record Duration := { seconds : Z; nanos : Z }.

Record VideoSegment :=
  { start_time_offset : Duration; end_time_offset : Duration }.

Record StreamingVideoAnnotationResults :=
  { shot_annotations : list VideoSegment }.

Record StreamingAnnotateVideoResponse :=
  { annotation_results : StreamingVideoAnnotationResults }.

(** ** Floating point

    Python floats are IEEE 754 binary64 numbers; their operations are the
    correctly rounded ones of the Standard Library's specification. *)

Definition prec : Z := 53.
Definition emax : Z := 1024.

Definition float := spec_float.

(** [float(i)] for an integer [i], as the coercion of [int + float] and
    [int / float] does it. *)
Definition float_of_int (i : Z) : float := binary_normalize prec emax i 0 false.

Definition float_add : float -> float -> float := SFadd prec emax.
Definition float_div : float -> float -> float := SFdiv prec emax.

(** The literal [1e9]. *)
Definition _1e9 : float := float_of_int (10 ^ 9).

(** The float nearest to the fraction [n / d] (ties to even). *)
Definition float_of_ratio (n d : Z) : float :=
  let '(q, e, l) := SFdiv_core_binary prec emax n 0 d 0 in
  binary_round_aux prec emax false q e l.

(** The float a decimal numeral denotes: [float("<n>e<p>")], for [n > 0]. *)
Definition float_of_decimal (n p : Z) : float :=
  if 0 <=? p then float_of_ratio (n * 10 ^ p) 1
  else float_of_ratio n (10 ^ (- p)).

(** *** Decimal digits of a positive fraction [a / b] *)

Fixpoint digits10_aux (fuel : nat) (n : Z) : Z :=
  match fuel with
  | O => 0
  | S fuel' => if n <? 10 then 1 else 1 + digits10_aux fuel' (n / 10)
  end.

(** Number of decimal digits of [n > 0]. *)
Definition digits10 (n : Z) : Z := digits10_aux (S (Z.to_nat (Z.log2 n))) n.

(** [a / b * 10 ^ p] as a fraction. *)
Definition scale10 (a b p : Z) : Z * Z :=
  if 0 <=? p then (a * 10 ^ p, b) else (a, b * 10 ^ (- p)).

(** The [x] with [10 ^ x <= a / b < 10 ^ (x + 1)]. *)
Definition exponent10 (a b : Z) : Z :=
  let x := digits10 a - digits10 b in
  let (a', b') := scale10 a b (- x) in
  if b' <=? a' then x else x - 1.

(** A decimal [n * 10 ^ p]. *)
Definition decimal : Type := Z * Z.

(** [a / b] rounded to [k] significant digits, ties to even. *)
Definition round_digits (k : Z) (a b : Z) : decimal :=
  let p := exponent10 a b - (k - 1) in
  let (a', b') := scale10 a b (- p) in
  let q := a' / b' in
  let r := a' mod b' in
  match 2 * r ?= b' with
  | Lt => (q, p)
  | Gt => (q + 1, p)
  | Eq => if Z.even q then (q, p) else (q + 1, p)
  end.

(** The shortest decimal of [k] digits or more that reads back as the float
    [x = a / b], the nearest to [a / b] among those of that length; from 17
    digits on the nearest decimal always reads back. *)
Fixpoint shortest_from (fuel : nat) (k : Z) (x : float) (a b : Z) : decimal :=
  match fuel with
  | O => round_digits k a b
  | S fuel' =>
      let p := exponent10 a b - (k - 1) in
      let (a', b') := scale10 a b (- p) in
      let q := a' / b' in
      let r := a' mod b' in
      let below := SFeqb (float_of_decimal q p) x in
      let above := SFeqb (float_of_decimal (q + 1) p) x in
      if r =? 0 then (q, p)
      else if below && above then round_digits k a b
      else if below then (q, p)
      else if above then (q + 1, p)
      else shortest_from fuel' (k + 1) x a b
  end.

Definition shortest (x : float) (a b : Z) : decimal := shortest_from 16 1 x a b.

Fixpoint strip_zeros_aux (fuel : nat) (n p : Z) : decimal :=
  match fuel with
  | O => (n, p)
  | S fuel' =>
      if (n mod 10 =? 0) && (0 <? n) then strip_zeros_aux fuel' (n / 10) (p + 1)
      else (n, p)
  end.

(** The same decimal without trailing zeros in [n]. *)
Definition strip_zeros (d : decimal) : decimal :=
  let (n, p) := d in strip_zeros_aux (Z.to_nat (Z.log2 n)) n p.

(** *** Text of a float

    [format_float_short] of the interpreter: the digits [n] and the position
    of the decimal point give fixed notation, with [.0] added to an integer,
    or exponent notation when the decimal point falls outside the window. *)

Definition digits_string (n : Z) : string := NilZero.string_of_int (Z.to_int n).

Fixpoint zeros (n : nat) : string :=
  match n with
  | O => EmptyString
  | S n' => String "0" (zeros n')
  end.

Definition slen (s : string) : Z := Z.of_nat (String.length s).

Definition format_fixed (ds : string) (decpt : Z) : string :=
  if decpt <=? 0 then "0." ++ zeros (Z.to_nat (- decpt)) ++ ds
  else if slen ds <=? decpt then ds ++ zeros (Z.to_nat (decpt - slen ds)) ++ ".0"
  else substring 0 (Z.to_nat decpt) ds ++ "."
       ++ substring (Z.to_nat decpt) (Z.to_nat (slen ds - decpt)) ds.

Definition format_exp (ds : string) (decpt : Z) : string :=
  let e := decpt - 1 in
  let mantissa :=
    match ds with
    | EmptyString => EmptyString
    | String d EmptyString => String d EmptyString
    | String d rest => String d ("." ++ rest)
    end in
  mantissa ++ "e" ++ (if e <? 0 then "-" else "+")
  ++ (if Z.abs e <? 10 then "0" else "") ++ digits_string (Z.abs e).

(** [window]: the largest position of the decimal point still written in
    fixed notation. *)
Definition format_float_short (window : Z) (d : decimal) : string :=
  let (n, p) := strip_zeros d in
  let ds := digits_string n in
  let decpt := slen ds + p in
  if (decpt <=? -4) || (window <? decpt) then format_exp ds decpt
  else format_fixed ds decpt.

(** A finite float [m * 2 ^ e] as a fraction. *)
Definition fraction (m : positive) (e : Z) : Z * Z :=
  if 0 <=? e then (Zpos m * 2 ^ e, 1) else (Zpos m, 2 ^ (- e)).

Definition signed (s : bool) (text : string) : string :=
  if s then "-" ++ text else text.

(** [str(x)] in Python 2.7, which is also what ['{}'.format(x)] gives: 12
    significant digits, format code [g]. *)
Definition float_str (x : float) : string :=
  match x with
  | S754_zero s => signed s "0.0"
  | S754_infinity s => signed s "inf"
  | S754_nan => "nan"
  | S754_finite s m e =>
      let (a, b) := fraction m e in
      signed s (format_float_short 11 (round_digits 12 a b))
  end.

(** [repr(x)], and [str(x)] from Python 3.2 on: the shortest digits that read
    back as [x]. *)
Definition float_repr (x : float) : string :=
  match x with
  | S754_zero s => signed s "0.0"
  | S754_infinity s => signed s "inf"
  | S754_nan => "nan"
  | S754_finite s m e =>
      let (a, b) := fraction m e in
      signed s (format_float_short 16 (shortest (S754_finite false m e) a b))
  end.

(** [template.format(args)] for a template whose only replacement fields are
    [{}]: each takes the next argument; a field with no argument left is an
    IndexError ([None]). *)
Fixpoint format (template : string) (args : list string) : option string :=
  match template with
  | EmptyString => Some EmptyString
  | String "{" (String "}" rest) =>
      match args with
      | a :: args' => option_map (append a) (format rest args')
      | [] => None
      end
  | String c rest => option_map (String c) (format rest args)
  end.

(** The value the script prints for an offset:
    [offset.seconds + offset.nanos / 1e9]. *)
Definition offset_value (offset : Duration) : float :=
  float_add (float_of_int (seconds offset))
            (float_div (float_of_int (nanos offset)) _1e9).

(** ** The world of the script: state, exceptions, environment *)

(** The exceptions that reach the script.  [IOError] is raised by [open];
    [ValueError] by an operation on a closed file; the other two by the
    response iterator of the client library. *)
Inductive exception : Type :=
| IOError (filename : string)
| ValueError
| IndexError
| DeadlineExceeded
| TransportFailure (details : string).

(** A file object on the heap: the file and whether it has been closed. *)
Record file_object := { fobj : file; closed : bool }.

(** One remote invocation: the request messages it sent, in order, and the
    timeout it was given, in seconds. *)
Record rpc_call :=
  { outbound : list StreamingAnnotateVideoRequest; timeout : Z }.

Record State := {
  stdout : string;
  files : list file_object;
  calls : list rpc_call
}.

Definition initial_state : State :=
  {| stdout := EmptyString; files := []; calls := [] |}.

(** What the script does not decide: which paths [open] can read, how many
    requests the transport asks the request iterator for before the call
    ends, and what the remote side does: the responses it sends, each after
    so many idle seconds counted as the [timeout] argument counts them, and
    how, after how many idle seconds, the response stream ends ([None]: a
    clean close). *)
Record Environment := {
  filesystem : string -> option bytes;
  demand : nat;
  inbound : list (Z * StreamingAnnotateVideoResponse);
  closing : Z * option string
}.

(** *** Computations that change the state and may raise *)

Inductive outcome (A : Type) : Type :=
| Ok (a : A)
| Raise (e : exception).
Arguments Ok {A} a.
Arguments Raise {A} e.

Definition M (A : Type) : Type := State -> outcome A * State.

Definition ret {A : Type} (a : A) : M A := fun s => (Ok a, s).

Definition bind {A B : Type} (c : M A) (k : A -> M B) : M B :=
  fun s =>
    match c s with
    | (Ok a, s') => k a s'
    | (Raise e, s') => (Raise e, s')
    end.

Definition raise {A : Type} (e : exception) : M A := fun s => (Raise e, s).

(** [try: c finally: cleanup]: the cleanup runs on every way out of [c], and
    what [c] returned or raised is passed on. *)
Definition finally {A : Type} (c : M A) (cleanup : M unit) : M A :=
  fun s =>
    match c s with
    | (r, s') =>
        match cleanup s' with
        | (Ok _, s'') => (r, s'')
        | (Raise e, s'') => (Raise e, s'')
        end
    end.

Declare Scope monad_scope.
Delimit Scope monad_scope with monad.
Notation "x <- c ;; k" := (bind c (fun x => k))
  (at level 61, c at next level, right associativity) : monad_scope.
Notation "c ;; k" := (bind c (fun _ => k))
  (at level 61, right associativity) : monad_scope.
Local Open Scope monad_scope.

(** [for x in xs: body(x)] over a list. *)
Fixpoint for_ {A : Type} (xs : list A) (body : A -> M unit) : M unit :=
  match xs with
  | [] => ret tt
  | x :: xs' => body x ;; for_ xs' body
  end.

(** [print(text)]: the text and a newline go to standard output. *)
Definition newline : string := String "010" EmptyString.

Definition print (text : string) : M unit :=
  fun s =>
    (Ok tt, {| stdout := stdout s ++ text ++ newline;
               files := files s; calls := calls s |}).

(** *** Files on the heap *)

Fixpoint set_nth {A : Type} (i : nat) (x : A) (l : list A) : list A :=
  match l, i with
  | [], _ => []
  | _ :: l', O => x :: l'
  | y :: l', S i' => y :: set_nth i' x l'
  end.

Definition set_file (h : nat) (o : file_object) : M unit :=
  fun s =>
    (Ok tt, {| stdout := stdout s; files := set_nth h o (files s);
               calls := calls s |}).

(** [open(path)]: a new file object, its cursor at the start, or IOError
    when the path cannot be read.  The result is the reference to it. *)
Definition open (env : Environment) (path : string) : M nat :=
  fun s =>
    match filesystem env path with
    | None => (Raise (IOError path), s)
    | Some b =>
        (Ok (length (files s)),
         {| stdout := stdout s;
            files := files s ++ [{| fobj := opened b; closed := false |}];
            calls := calls s |})
    end.

(** [f.close()], which is also what leaving a [with] block does. *)
Definition close (h : nat) : M unit :=
  fun s =>
    match nth_error (files s) h with
    | Some o => set_file h {| fobj := fobj o; closed := true |} s
    | None => (Ok tt, s)
    end.

(** [with open(path) as f: body(f)]. *)
Definition with_open {A : Type} (env : Environment) (path : string)
    (body : nat -> M A) : M A :=
  f <- open env path ;; finally (body f) (close f).

(** *** The generator expression over [stream]

    [(StreamingAnnotateVideoRequest(input_content=chunk) for chunk in chunks)]
    wraps each chunk into a request, one request per chunk, when it is asked
    for its next item. *)
Record genexpr (F : Type) := { chunks : generator F }.
Arguments chunks {F} _.

Definition requests_step {F : Type} `{FileLike F} (requests : genexpr F)
    : option StreamingAnnotateVideoRequest * genexpr F :=
  let (chunk, g') := next (chunks requests) in
  (option_map input_content chunk, {| chunks := g' |}).

(** The file object a generator holds. *)
Definition file_of {F : Type} (g : generator F) : F :=
  match g with
  | Suspended file_object _ => file_object
  | Returned file_object => file_object
  end.

(** Asking the request iterator for at most [n] items.  The generator holds
    a reference to the file object on the heap: its reads move the cursor of
    that object, and raise ValueError once it is closed. *)
Definition pull_requests (n : nat) (requests : genexpr nat)
    : M (list StreamingAnnotateVideoRequest) :=
  fun s =>
    match chunks requests with
    | Returned _ => (Ok [], s)
    | Suspended h chunk_size =>
        match n, nth_error (files s) h with
        | O, _ => (Ok [], s)
        | _, None => (Raise ValueError, s)
        | _, Some o =>
            if closed o then (Raise ValueError, s)
            else
              let (sent, requests') :=
                pull requests_step n
                     {| chunks := Suspended (fobj o) chunk_size |} in
              match set_file h {| fobj := file_of (chunks requests');
                                  closed := false |} s with
              | (_, s') => (Ok sent, s')
              end
        end
    end.

(** ** The client library *)

(** The iterator over responses that the streaming call returns: what the
    remote side will send, and the timeout of the call. *)
Record response_iterator := {
  pending : list (Z * StreamingAnnotateVideoResponse);
  ending : Z * option string;
  deadline : Z
}.

(** The client object. *)
Inductive client : Type := Client.

(** Modelled from the spec: the constructor
    [videointelligence.StreamingVideoIntelligenceServiceClient()] of the
    client library.  Section 6: it constructs the client handle; it submits
    nothing to the service. *)
Definition StreamingVideoIntelligenceServiceClient : M client := ret Client.

Definition record_call (c : rpc_call) : M unit :=
  fun s =>
    (Ok tt, {| stdout := stdout s; files := files s;
               calls := calls s ++ [c] |}).

(** Modelled from the spec: [client.streaming_annotate_video] belongs to the
    client library, which is not part of the script.  Section 4.2: it opens
    one remote invocation, transmits the configuration request as the first
    message and then each request of the iterator, in the order produced,
    one message per request; it returns the sequence of responses. *)
Definition streaming_annotate_video (env : Environment) (self : client)
    (config_request : StreamingAnnotateVideoRequest)
    (requests : genexpr nat) (timeout : Z) : M response_iterator :=
  sent <- pull_requests (demand env) requests ;;
  record_call {| outbound := config_request :: sent; timeout := timeout |} ;;
  ret {| pending := inbound env; ending := closing env; deadline := timeout |}.

(** Modelled from the spec: iterating the responses, [for response in
    responses: body(response)].  Section 4.2: a response that does not
    arrive within the timeout ends the session with DeadlineExceeded and no
    further response is delivered; a transport failure is a different
    error; a clean close ends the loop. *)
Fixpoint for_responses_from (deadline : Z)
    (pending : list (Z * StreamingAnnotateVideoResponse))
    (ending : Z * option string)
    (body : StreamingAnnotateVideoResponse -> M unit) : M unit :=
  match pending with
  | (idle, response) :: rest =>
      if deadline <? idle then raise DeadlineExceeded
      else body response ;; for_responses_from deadline rest ending body
  | [] =>
      let (idle, failure) := ending in
      if deadline <? idle then raise DeadlineExceeded
      else match failure with
           | Some details => raise (TransportFailure details)
           | None => ret tt
           end
  end.

Definition for_responses (responses : response_iterator)
    (body : StreamingAnnotateVideoResponse -> M unit) : M unit :=
  for_responses_from (deadline responses) (pending responses)
                     (ending responses) body.

(** ** The script *)

(** [template.format(args)] as a computation: the text, or IndexError. *)
Definition format_ (template : string) (args : list string) : M string :=
  match format template args with
  | Some text => ret text
  | None => raise IndexError
  end.

(** The body of the inner loop: the [print] of one annotation. *)
Definition print_shot (annotation : VideoSegment) : M unit :=
  line <- format_ "Shot: {}s to {}s"
            [float_str (offset_value (start_time_offset annotation));
             float_str (offset_value (end_time_offset annotation))] ;;
  print line.

Definition streaming_annotate (env : Environment) (stream_file : string)
    : M unit :=
  client <- StreamingVideoIntelligenceServiceClient ;;
  let chunk_size := 5 * 1024 * 1024 in
  with_open env stream_file (fun video_file =>
    let requests := {| chunks := stream video_file chunk_size |} in
    let config := {| feature := STREAMING_SHOT_CHANGE_DETECTION |} in
    let config_request := video_config config in
    responses <- streaming_annotate_video env client config_request
                   requests 10800 ;;
    print (newline ++ "Reading response.") ;;
    for_responses responses (fun response =>
      for_ (shot_annotations (annotation_results response)) print_shot)).

(** The process from the last line of the script on:
    [streaming_annotate(args.file_path)] at top level, once
    [parser.parse_args()] has returned with [args.file_path = file_path].
    (A usage error or [-h] ends the process inside [parse_args], before this
    point and before any file is opened.)  An exception nobody caught is
    shown on standard error and the exit status is 1; otherwise the exit
    status is 0. *)
Record process := {
  exit_status : Z;
  traceback : option exception;
  final : State
}.

Definition main (env : Environment) (file_path : string) : process :=
  match streaming_annotate env file_path initial_state with
  | (Ok _, s) => {| exit_status := 0; traceback := None; final := s |}
  | (Raise e, s) => {| exit_status := 1; traceback := Some e; final := s |}
  end.

(** ** Vocabulary of the specification

    The words the properties below are stated in. *)

(** The request messages that carry the configuration. *)
Definition is_config (r : StreamingAnnotateVideoRequest) : bool :=
  match r with
  | video_config _ => true
  | input_content _ => false
  end.

(** The request the script builds for the configuration. *)
Definition shot_config_request : StreamingAnnotateVideoRequest :=
  video_config {| feature := STREAMING_SHOT_CHANGE_DETECTION |}.

(** The responses delivered to the loop: those that arrive before the first
    one that misses the deadline. *)
Fixpoint delivered (deadline : Z)
    (pending : list (Z * StreamingAnnotateVideoResponse))
    : list StreamingAnnotateVideoResponse :=
  match pending with
  | (idle, response) :: rest =>
      if deadline <? idle then [] else response :: delivered deadline rest
  | [] => []
  end.

(** How the iteration over the responses ends. *)
Fixpoint session_end (deadline : Z)
    (pending : list (Z * StreamingAnnotateVideoResponse))
    (ending : Z * option string) : outcome unit :=
  match pending with
  | (idle, _) :: rest =>
      if deadline <? idle then Raise DeadlineExceeded
      else session_end deadline rest ending
  | [] =>
      if deadline <? fst ending then Raise DeadlineExceeded
      else match snd ending with
           | Some details => Raise (TransportFailure details)
           | None => Ok tt
           end
  end.

(** The line of one annotation: [Shot: <start>s to <end>s]. *)
Definition shot_line (annotation : VideoSegment) : string :=
  "Shot: " ++ float_str (offset_value (start_time_offset annotation))
  ++ "s to " ++ float_str (offset_value (end_time_offset annotation)) ++ "s".

(** The lines of a sequence of responses: response after response, and in
    each response annotation after annotation. *)
Definition shot_lines (responses : list StreamingAnnotateVideoResponse)
    : list string :=
  flat_map (fun response =>
              map shot_line (shot_annotations (annotation_results response)))
           responses.

(** The text that printing the lines one by one writes. *)
Fixpoint printed (lines : list string) : string :=
  match lines with
  | [] => EmptyString
  | line :: rest => line ++ newline ++ printed rest
  end.

(** The lines of a text: the pieces that end at a newline, then what is left
    when the text does not end with one. *)
Fixpoint output_lines_from (current : string) (text : string) : list string :=
  match text with
  | EmptyString =>
      match current with
      | EmptyString => []
      | _ => [current]
      end
  | String c rest =>
      if Ascii.eqb c "010" then current :: output_lines_from EmptyString rest
      else output_lines_from (current ++ String c EmptyString) rest
  end.

Definition output_lines (text : string) : list string :=
  output_lines_from EmptyString text.

(** The header the script prints before it reads the responses. *)
Definition header : string := newline ++ "Reading response." ++ newline.

(** The file objects still open. *)
Definition open_files (s : State) : list file_object :=
  filter (fun o => negb (closed o)) (files s).

(** ** Sample inputs *)

(** A shot from [s1] s [n1] ns to [s2] s [n2] ns. *)
Definition shot (s1 n1 s2 n2 : Z) : VideoSegment :=
  {| start_time_offset := {| seconds := s1; nanos := n1 |};
     end_time_offset := {| seconds := s2; nanos := n2 |} |}.

(** A response that carries the given annotations. *)
Definition response_of (annotations : list VideoSegment)
    : StreamingAnnotateVideoResponse :=
  {| annotation_results := {| shot_annotations := annotations |} |}.

(** Every path holds the bytes [b]; the transport asks for up to eight
    requests; the remote side answers nothing and closes at once. *)
Definition small_env (b : bytes) : Environment :=
  {| filesystem := fun _ => Some b;
     demand := 8;
     inbound := [];
     closing := (0, None) |}.

(** Three responses, the second without annotations, over a file of five
    bytes. *)
Definition sample_env : Environment :=
  {| filesystem := fun _ => Some [Byte.x01; Byte.x02; Byte.x03; Byte.x04; Byte.x05];
     demand := 8;
     inbound :=
       [(3, response_of [shot 0 0 4 170837000; shot 4 204204000 7 107107000]);
        (1, response_of []);
        (2, response_of [shot 7 140473000 11 778445000])];
     closing := (0, None) |}.

(** The second of three responses takes four hours. *)
Definition slow_env : Environment :=
  {| filesystem := fun _ => Some [Byte.x01; Byte.x02; Byte.x03];
     demand := 8;
     inbound :=
       [(3, response_of [shot 0 0 4 170837000]);
        (14400, response_of [shot 4 204204000 7 107107000]);
        (2, response_of [shot 7 140473000 11 778445000])];
     closing := (0, None) |}.

(** No path can be opened. *)
Definition no_file_env : Environment :=
  {| filesystem := fun _ => None;
     demand := 8;
     inbound := [(1, response_of [shot 0 0 4 170837000])];
     closing := (0, None) |}.

(** A file of 12 MiB of zero bytes. *)
Definition twelve_mib : bytes := repeat Byte.x00 (Z.to_nat (12 * 1024 * 1024)).

(** ** Further vocabulary *)

(** A file object that counts the calls of its [read] method and passes
    them on to the file object it wraps. *)
Record counting (F : Type) := { wrapped : F; reads : nat }.
Arguments wrapped {F} _.
Arguments reads {F} _.

#[export] Instance counting_FileLike {F : Type} `{FileLike F}
    : FileLike (counting F) :=
  {| read := fun c size =>
       let (data, f') := read (wrapped c) size in
       (data, {| wrapped := f'; reads := S (reads c) |}) |}.

(** A text without a newline character. *)
Fixpoint one_line (text : string) : bool :=
  match text with
  | EmptyString => true
  | String c rest => negb (Ascii.eqb c "010") && one_line rest
  end.

(** The content of the chunk requests of a sequence of messages. *)
Fixpoint payloads (messages : list StreamingAnnotateVideoRequest)
    : list bytes :=
  match messages with
  | [] => []
  | input_content chunk :: rest => chunk :: payloads rest
  | video_config _ :: rest => payloads rest
  end.

(** Two responses in time, then the transport fails. *)
Definition failing_env : Environment :=
  {| filesystem := fun _ => Some [Byte.x01; Byte.x02; Byte.x03];
     demand := 8;
     inbound :=
       [(3, response_of [shot 0 0 4 170837000]);
        (5, response_of [shot 4 204204000 7 107107000])];
     closing := (1, Some "connection reset"%string) |}.

(** The transport stops after one request. *)
Definition impatient_env (b : bytes) : Environment :=
  {| filesystem := fun _ => Some b;
     demand := 1;
     inbound := [];
     closing := (0, None) |}.

(** * Properties *)

(** ** Consumers of an iterator *)

Section IteratorFacts.
Context {G A : Type} (step : G -> option A * G).

Lemma exhaust_more_fuel (fuel fuel' : nat) (g : G) r :
  exhaust step fuel g = Some r -> (fuel <= fuel')%nat ->
  exhaust step fuel' g = Some r.
Proof.
  revert fuel' g r.
  induction fuel as [|fuel IH]; intros fuel' g r E L; [discriminate|].
  destruct fuel' as [|fuel']; [lia|].
  simpl in *. destruct (step g) as [[a|] g']; [|exact E].
  destruct (exhaust step fuel g') as [[rest g'']|] eqn:E'; [|discriminate].
  rewrite (IH fuel' g' _ E') by lia. exact E.
Qed.

(** Whoever asks for [n] items gets the first [n] of those the iterator
    has. *)
Lemma pull_exhaust (fuel n : nat) (g g' : G) (items : list A) :
  exhaust step fuel g = Some (items, g') ->
  fst (pull step n g) = firstn n items.
Proof.
  revert n g items.
  induction fuel as [|fuel IH]; intros n g items E; [discriminate|].
  destruct n as [|n]; [reflexivity|].
  simpl in *. destruct (step g) as [[a|] g1].
  - destruct (exhaust step fuel g1) as [[rest g2]|] eqn:E'; [|discriminate].
    injection E as <- <-.
    specialize (IH n g1 rest E').
    destruct (pull step n g1) as [got g3]. simpl in *. now rewrite IH.
  - injection E as <- <-. reflexivity.
Qed.
End IteratorFacts.

(** ** Arithmetic of chunk counts *)

Lemma ceil_div_spec (n c : Z) :
  0 < c -> (ceil_div n c - 1) * c < n <= ceil_div n c * c.
Proof.
  intros Hc. unfold ceil_div.
  pose proof (Z.div_mod (n + c - 1) c ltac:(lia)) as E.
  pose proof (Z.mod_pos_bound (n + c - 1) c Hc) as B.
  nia.
Qed.

Lemma ceil_div_0 (c : Z) : 0 < c -> ceil_div 0 c = 0.
Proof. intros Hc. unfold ceil_div. apply Z.div_small. lia. Qed.

Lemma ceil_div_small (n c : Z) : 0 < n <= c -> ceil_div n c = 1.
Proof.
  intros Hn. unfold ceil_div.
  symmetry. apply (Z.div_unique_pos _ _ 1 (n - 1)); lia.
Qed.

Lemma ceil_div_step (n c : Z) : 0 < c -> ceil_div (n + c) c = ceil_div n c + 1.
Proof.
  intros Hc. unfold ceil_div.
  replace (n + c + c - 1) with (n + c - 1 + 1 * c) by lia.
  apply Z.div_add. lia.
Qed.

Lemma ceil_div_exact (n c : Z) : 0 < c -> n mod c = 0 -> ceil_div n c = n / c.
Proof.
  intros Hc Hm. unfold ceil_div.
  pose proof (Z.div_mod n c ltac:(lia)) as E. rewrite Hm in E.
  symmetry. apply (Z.div_unique_pos _ _ _ (c - 1)); lia.
Qed.

(** ** Reads of a regular file *)

Lemma len_nil {A : Type} (l : list A) : len l = 0 -> l = [].
Proof. unfold len. destruct l; simpl; [reflexivity | lia]. Qed.

Lemma len_app {A : Type} (l l' : list A) : len (l ++ l') = len l + len l'.
Proof. unfold len. rewrite length_app. lia. Qed.

Lemma len_nonneg {A : Type} (l : list A) : 0 <= len l.
Proof. unfold len. lia. Qed.

(** A read of [size > 0] bytes returns the first [size] bytes that remain and
    leaves the others. *)
Lemma file_read_spec (f : file) (size : Z) :
  0 < size ->
  fst (file_read f size) = firstn (Z.to_nat size) (remaining f) /\
  remaining (snd (file_read f size)) = skipn (Z.to_nat size) (remaining f).
Proof.
  intros Hs. unfold file_read.
  destruct (Z.ltb_spec size 0) as [L|L]; [lia|]. simpl. split; [reflexivity|].
  unfold remaining at 1. simpl.
  rewrite Nat.add_comm, <- skipn_skipn. fold (remaining f).
  rewrite length_firstn.
  destruct (Nat.le_ge_cases (Z.to_nat size) (length (remaining f))) as [L'|L'].
  - now rewrite Nat.min_l.
  - rewrite Nat.min_r by exact L'.
    now rewrite !skipn_all2 by lia.
Qed.

(** ** The chunks of a regular file *)

(** What [stream] yields from a file whose cursor may be anywhere: the
    iteration ends within [fuel] resumptions, at end of file, and the chunks
    cut what remained into pieces of [chunk_size] bytes and a shorter last
    piece. *)
Lemma stream_remaining (chunk_size : Z) (fuel : nat) (f : file) :
  0 < chunk_size ->
  (length (remaining f) < fuel)%nat ->
  exists (yielded : list bytes) (f' : file),
    exhaust next fuel (stream f chunk_size) = Some (yielded, Returned f') /\
    remaining f' = [] /\
    concat yielded = remaining f /\
    len yielded = ceil_div (len (remaining f)) chunk_size /\
    Forall (fun chunk => len chunk = chunk_size) (removelast yielded) /\
    Forall (fun chunk => chunk <> []) yielded /\
    (yielded <> [] ->
     len (last yielded []) =
       if len (remaining f) mod chunk_size =? 0 then chunk_size
       else len (remaining f) mod chunk_size).
Proof.
  intros HC. revert f.
  induction fuel as [|fuel IH]; intros f Hfuel; [lia|].
  unfold stream in *. cbn [exhaust next read file_FileLike].
  destruct (file_read_spec f chunk_size HC) as [Hdata Hrest].
  destruct (file_read f chunk_size) as [data f1] eqn:R. cbn [fst snd] in *.
  destruct (remaining f) as [|x rest] eqn:Rem.
  - (* end of file: the read is empty *)
    rewrite firstn_nil in Hdata. subst data. cbn [not_].
    exists [], f1. rewrite skipn_nil in Hrest.
    repeat split; auto.
    + now rewrite ceil_div_0.
    + intros []. reflexivity.
  - (* a chunk *)
    set (n := Z.to_nat chunk_size) in *.
    assert (Hn : (0 < n)%nat) by (subst n; lia).
    assert (Hd : data <> []).
    { rewrite Hdata. destruct n; [lia|]. discriminate. }
    destruct data as [|d data']; [congruence|]. cbn [not_].
    assert (Hlen1 : (length (remaining f1) < fuel)%nat).
    { rewrite Hrest, length_skipn. cbn [length] in *. lia. }
    destruct (IH f1 Hlen1) as (ys & f' & E & Heof & Hcat & Hcount & Hfull & Hne & Hlast).
    rewrite E. exists ((d :: data') :: ys), f'.
    assert (Hsplit : (d :: data') ++ remaining f1 = x :: rest).
    { rewrite Hdata, Hrest. apply firstn_skipn. }
    assert (Hdl : len (d :: data') = Z.min chunk_size (len (x :: rest))).
    { rewrite Hdata. unfold len. rewrite length_firstn. subst n. lia. }
    assert (Htot : len (x :: rest) = len (d :: data') + len (remaining f1)).
    { rewrite <- Hsplit. apply len_app. }
    assert (Hpos : 0 < len (x :: rest)) by (unfold len; cbn [length]; lia).
    pose proof (len_nonneg (remaining f1)) as Hnn.
    repeat split.
    + exact Heof.
    + cbn [concat]. now rewrite Hcat.
    + (* the count *)
      replace (len ((d :: data') :: ys)) with (len ys + 1)
        by (unfold len; cbn [length]; lia).
      rewrite Hcount.
      destruct (Z.le_gt_cases chunk_size (len (x :: rest))) as [L|L].
      * replace (len (x :: rest)) with (len (remaining f1) + chunk_size) by lia.
        now rewrite ceil_div_step.
      * replace (len (remaining f1)) with 0 by lia.
        rewrite ceil_div_0, ceil_div_small by lia. reflexivity.
    + (* all but the last are full *)
      destruct ys as [|y ys']; [constructor|].
      cbn [removelast]. constructor; [|exact Hfull].
      assert (0 < len (remaining f1)).
      { rewrite <- Hcat. inversion Hne as [|? ? Hy _]; subst.
        cbn [concat]. rewrite len_app.
        pose proof (len_nonneg (concat ys')).
        destruct y; [congruence|]. unfold len at 1. cbn [length]. lia. }
      lia.
    + constructor; [discriminate | exact Hne].
    + (* the last one *)
      intros _. destruct ys as [|y ys'].
      * cbn [last]. cbn [concat] in Hcat.
        replace (len (remaining f1)) with 0 in * by (now rewrite <- Hcat).
        assert (Hle : len (x :: rest) <= chunk_size) by lia.
        destruct (Z.eqb_spec (len (x :: rest) mod chunk_size) 0) as [Z0|NZ].
        -- destruct (Z.eq_dec (len (x :: rest)) chunk_size) as [Heq|Hlt]; [lia|].
           rewrite Z.mod_small in Z0 by lia. lia.
        -- destruct (Z.eq_dec (len (x :: rest)) chunk_size) as [Heq|Hlt].
           ++ rewrite Heq, Z.mod_same in NZ by lia. congruence.
           ++ rewrite Z.mod_small by lia. lia.
      * assert (Hy : 0 < len (remaining f1)).
        { rewrite <- Hcat. inversion Hne as [|? ? Hy _]; subst.
          cbn [concat]. rewrite len_app.
          pose proof (len_nonneg (concat ys')).
          destruct y; [congruence|]. unfold len at 1. cbn [length]. lia. }
        change (last ((d :: data') :: y :: ys') []) with (last (y :: ys') []).
        rewrite Hlast by discriminate.
        replace (len (x :: rest)) with (len (remaining f1) + 1 * chunk_size)
          by lia.
        now rewrite Z.mod_add by lia.
Qed.

Lemma concat_nonempty_nil {A : Type} (l : list (list A)) :
  Forall (fun x => x <> []) l -> concat l = [] -> l = [].
Proof.
  intros Hne Hcat. destruct l as [|x l']; [reflexivity|].
  inversion Hne as [|? ? Hx _]. cbn [concat] in Hcat.
  apply app_eq_nil in Hcat. tauto.
Qed.

Lemma Forall_removelast_last {A : Type} (P : A -> Prop) (l : list A) (d : A) :
  l <> [] -> Forall P (removelast l) -> P (last l d) -> Forall P l.
Proof.
  intros Hl Hinit Hlast.
  rewrite (app_removelast_last d Hl).
  apply Forall_app. split; [exact Hinit | constructor; [exact Hlast | constructor]].
Qed.

(** C1.  For a file of N bytes and a chunk size C > 0, iterating [stream]
    over the freshly opened file ends and yields the ceiling of N / C chunks
    when N > 0 and none when N = 0; the chunks, concatenated in order, are
    the bytes of the file; every chunk but the last has exactly C bytes; the
    last has N mod C bytes when that is not zero; and when C divides N there
    are exactly N / C chunks, all of C bytes, so no empty chunk trails.  No
    chunk is ever empty. *)
Theorem stream_chunks_file (b : bytes) (chunk_size : Z) (fuel : nat) :
  0 < chunk_size ->
  (length b < fuel)%nat ->
  exists (yielded : list bytes) (f' : file),
    exhaust next fuel (stream (opened b) chunk_size)
      = Some (yielded, Returned f') /\
    (0 < len b ->
     len yielded = ceil_div (len b) chunk_size /\
     (len yielded - 1) * chunk_size < len b <= len yielded * chunk_size) /\
    (len b = 0 -> yielded = []) /\
    concat yielded = b /\
    Forall (fun chunk => len chunk = chunk_size) (removelast yielded) /\
    (len b mod chunk_size <> 0 ->
     len (last yielded []) = len b mod chunk_size) /\
    (len b mod chunk_size = 0 ->
     len yielded = len b / chunk_size /\
     Forall (fun chunk => len chunk = chunk_size) yielded) /\
    Forall (fun chunk => chunk <> []) yielded.
Proof.
  intros HC Hfuel.
  destruct (stream_remaining chunk_size fuel (opened b) HC)
    as (ys & f' & E & _ & Hcat & Hcount & Hfull & Hne & Hlast).
  { exact Hfuel. }
  change (remaining (opened b)) with b in *.
  exists ys, f'. split; [exact E|].
  split; [|split; [|split; [|split; [|split; [|split]]]]].
  - intros _. split; [exact Hcount|].
    rewrite Hcount. apply ceil_div_spec, HC.
  - intros H0. apply len_nil in H0. rewrite H0 in Hcat.
    now apply concat_nonempty_nil.
  - exact Hcat.
  - exact Hfull.
  - intros Hmod.
    assert (Hys : ys <> []).
    { intros ->. cbn [concat] in Hcat. rewrite <- Hcat in Hmod.
      change (len (@nil Byte.byte)) with 0 in Hmod.
      now rewrite Z.mod_0_l in Hmod by lia. }
    rewrite (Hlast Hys).
    destruct (Z.eqb_spec (len b mod chunk_size) 0); [congruence | reflexivity].
  - intros Hmod. split.
    + rewrite Hcount. now apply ceil_div_exact.
    + destruct ys as [|y ys']; [constructor|].
      apply (Forall_removelast_last _ _ []); [discriminate | exact Hfull |].
      rewrite Hlast by discriminate. now rewrite Hmod.
  - exact Hne.
Qed.

(** A file of five bytes read two bytes at a time. *)
Lemma stream_chunks_file_witness :
  exists (yielded : list bytes) (f' : file),
    exhaust next 6 (stream (opened [Byte.x01; Byte.x02; Byte.x03;
                                    Byte.x04; Byte.x05]) 2)
      = Some (yielded, Returned f') /\
    concat yielded = [Byte.x01; Byte.x02; Byte.x03; Byte.x04; Byte.x05] /\
    len (last yielded []) = 1.
Proof.
  destruct (stream_chunks_file
              [Byte.x01; Byte.x02; Byte.x03; Byte.x04; Byte.x05] 2 6)
    as (ys & f' & E & _ & _ & Hcat & _ & Hlast & _).
  - lia.
  - simpl. lia.
  - exists ys, f'. split; [exact E|]. split; [exact Hcat|].
    apply Hlast. vm_compute. discriminate.
Defined.

(** ** Any file-like object *)

Section AnyFileObject.
Context {F : Type} `{FileLike F}.

(** When the read number [n] is empty, [n + 1] resumptions are enough: the
    iteration ends, with at most [n] chunks, none of them empty, each one
    the data of a read. *)
Lemma stream_ends_at_empty_read (n : nat) (chunk_size : Z) :
  forall file_object : F,
    nth_read n file_object chunk_size = [] ->
    exists (yielded : list bytes) (g' : generator F),
      exhaust next (S n) (stream file_object chunk_size)
        = Some (yielded, g') /\
      (length yielded <= n)%nat /\
      Forall (fun chunk => chunk <> []) yielded /\
      (forall i chunk, nth_error yielded i = Some chunk ->
                       chunk = nth_read i file_object chunk_size).
Proof.
  unfold stream.
  induction n as [|n IH]; intros fo Hempty.
  - cbn [nth_read] in Hempty. cbn [exhaust next].
    destruct (read fo chunk_size) as [data fo']. cbn [fst] in Hempty.
    subst data. cbn [not_]. exists [], (Returned fo').
    repeat split; auto. intros [|i] chunk E; discriminate.
  - cbn [nth_read] in Hempty.
    remember (S n) as fuel. cbn [exhaust next nth_read].
    destruct (read fo chunk_size) as [data fo'] eqn:R. cbn [snd] in Hempty.
    destruct data as [|d data']; cbn [not_].
    + exists [], (Returned fo'). repeat split; auto; [cbn; lia|].
      intros [|i] chunk E; discriminate.
    + subst fuel. destruct (IH fo' Hempty) as (ys & g' & E & Hlen & Hne & Hnth).
      rewrite E. exists ((d :: data') :: ys), g'.
      repeat split.
      * cbn [length]. lia.
      * constructor; [discriminate | exact Hne].
      * intros [|i] chunk Hi; cbn [nth_error nth_read] in *; rewrite R.
        -- now injection Hi as <-.
        -- cbn [snd]. now apply Hnth.
Qed.
End AnyFileObject.

(** C10.  For every file object whose reads of [chunk_size] bytes return at
    most [chunk_size] bytes each and return an empty result at some read
    [n], iterating [stream] ends (within [n + 1] resumptions), and
    every value it yields is a chunk that is not empty and has at most
    [chunk_size] bytes. *)
Theorem stream_terminates_nonempty_chunks
    {F : Type} `{FileLike F} (file_object : F) (chunk_size : Z) (n : nat) :
  (forall k, (k < n)%nat -> len (nth_read k file_object chunk_size) <= chunk_size) ->
  nth_read n file_object chunk_size = [] ->
  exists (yielded : list bytes) (g' : generator F),
    exhaust next (S n) (stream file_object chunk_size) = Some (yielded, g') /\
    Forall (fun chunk => chunk <> [] /\ len chunk <= chunk_size) yielded.
Proof.
  intros Hbound Hempty.
  destruct (stream_ends_at_empty_read n chunk_size file_object Hempty)
    as (ys & g' & E & Hlen & Hne & Hnth).
  exists ys, g'. split; [exact E|].
  apply Forall_forall. intros chunk Hin.
  split; [now apply (proj1 (Forall_forall _ _) Hne)|].
  apply In_nth_error in Hin. destruct Hin as [i Hi].
  rewrite (Hnth i chunk Hi). apply Hbound.
  assert (i < length ys)%nat by (apply nth_error_Some; congruence). lia.
Qed.

(** A regular file of three bytes read two at a time: the third read is
    empty. *)
Lemma stream_terminates_nonempty_chunks_witness :
  exists (yielded : list bytes) (g' : generator file),
    exhaust next 3 (stream (opened [Byte.x61; Byte.x62; Byte.x63]) 2)
      = Some (yielded, g') /\
    Forall (fun chunk => chunk <> [] /\ len chunk <= 2) yielded.
Proof.
  apply (stream_terminates_nonempty_chunks
           (opened [Byte.x61; Byte.x62; Byte.x63]) 2 2).
  - intros [|[|k]] Hk; [vm_compute; discriminate | vm_compute; discriminate | lia].
  - reflexivity.
Defined.

(** ** Text and heap *)

Lemma append_assoc (s1 s2 s3 : string) :
  ((s1 ++ s2) ++ s3 = s1 ++ (s2 ++ s3))%string.
Proof. induction s1 as [|c s1 IH]; simpl; [reflexivity | now rewrite IH]. Qed.

Lemma append_nil_r (s : string) : (s ++ "")%string = s.
Proof. induction s as [|c s IH]; simpl; [reflexivity | now rewrite IH]. Qed.

Lemma printed_app (l1 l2 : list string) :
  printed (l1 ++ l2) = (printed l1 ++ printed l2)%string.
Proof.
  induction l1 as [|x l1 IH]; simpl; [reflexivity|].
  now rewrite IH, !append_assoc.
Qed.

Lemma nth_error_snoc {A : Type} (l : list A) (x : A) :
  nth_error (l ++ [x]) (length l) = Some x.
Proof. induction l as [|y l IH]; simpl; [reflexivity | exact IH]. Qed.

Lemma set_nth_snoc {A : Type} (l : list A) (x y : A) :
  set_nth (length l) y (l ++ [x]) = l ++ [y].
Proof. induction l as [|z l IH]; simpl; [reflexivity | now rewrite IH]. Qed.

(** ** The request iterator *)

(** The generator expression yields one request per chunk of [stream], in
    the order of the chunks, and resumes [stream] once per request. *)
Lemma pull_requests_step {F : Type} `{FileLike F} (n : nat) (g : generator F) :
  pull requests_step n {| chunks := g |} =
  (map input_content (fst (pull next n g)),
   {| chunks := snd (pull next n g) |}).
Proof.
  revert g. induction n as [|n IH]; intros g; [reflexivity|].
  cbn [pull]. unfold requests_step at 1. cbn [chunks].
  destruct (next g) as [[chunk|] g1]; cbn [option_map]; [|reflexivity].
  rewrite IH. destruct (pull next n g1) as [rest g2]. reflexivity.
Qed.

(** ** The response loop *)

Lemma format_shot (a b : string) :
  format "Shot: {}s to {}s" [a; b]
  = Some ("Shot: " ++ a ++ "s to " ++ b ++ "s")%string.
Proof. reflexivity. Qed.

(** One pass of the inner loop prints the line of the annotation. *)
Lemma print_shot_line (annotation : VideoSegment) (s : State) :
  print_shot annotation s =
  (Ok tt, {| stdout := stdout s ++ shot_line annotation ++ newline;
             files := files s; calls := calls s |}).
Proof. unfold print_shot, bind, format_. rewrite format_shot. reflexivity. Qed.

(** The inner loop prints the line of each annotation, in the order of the
    list. *)
Lemma for_print_shot (annotations : list VideoSegment) (s : State) :
  for_ annotations print_shot s =
  (Ok tt, {| stdout := stdout s ++ printed (map shot_line annotations);
             files := files s; calls := calls s |}).
Proof.
  revert s. induction annotations as [|a rest IH]; intros s.
  - cbn. rewrite append_nil_r. now destruct s.
  - cbn [for_ map printed]. unfold bind at 1.
    rewrite print_shot_line, IH. cbn [stdout files calls].
    now rewrite !append_assoc.
Qed.

(** The outer loop runs its body once for each delivered response, in the
    order of delivery, and then ends as the session ends. *)
Lemma for_responses_from_body (deadline : Z)
    (pending : list (Z * StreamingAnnotateVideoResponse))
    (ending : Z * option string)
    (body : StreamingAnnotateVideoResponse -> M unit) (s : State) :
  for_responses_from deadline pending ending body s =
  match for_ (delivered deadline pending) body s with
  | (Ok _, s') => (session_end deadline pending ending, s')
  | (Raise e, s') => (Raise e, s')
  end.
Proof.
  revert s. induction pending as [|[idle response] rest IH]; intros s.
  - cbn. destruct ending as [idle failure]. cbn.
    destruct (deadline <? idle); [reflexivity|].
    destruct failure; reflexivity.
  - cbn [for_responses_from delivered session_end].
    destruct (deadline <? idle); [reflexivity|].
    cbn [for_]. unfold bind.
    destruct (body response s) as [[[]|e] s1]; [apply IH | reflexivity].
Qed.

Lemma for_responses_print (deadline : Z)
    (pending : list (Z * StreamingAnnotateVideoResponse))
    (ending : Z * option string) (s : State) :
  for_responses_from deadline pending ending
    (fun response =>
       for_ (shot_annotations (annotation_results response)) print_shot) s =
  (session_end deadline pending ending,
   {| stdout := stdout s ++ printed (shot_lines (delivered deadline pending));
      files := files s; calls := calls s |}).
Proof.
  rewrite for_responses_from_body.
  assert (E : forall responses s0,
    for_ responses
      (fun response =>
         for_ (shot_annotations (annotation_results response)) print_shot) s0 =
    (Ok tt, {| stdout := stdout s0 ++ printed (shot_lines responses);
               files := files s0; calls := calls s0 |})).
  { induction responses as [|r rest IH]; intros s0.
    - cbn. rewrite append_nil_r. now destruct s0.
    - cbn [for_]. unfold bind at 1. rewrite for_print_shot, IH.
      cbn [stdout files calls]. unfold shot_lines. cbn [flat_map].
      now rewrite printed_app, append_assoc. }
  now rewrite E.
Qed.

(** ** Runs of [streaming_annotate] *)

(** The run on a path that cannot be opened: IOError, and nothing else has
    happened. *)
Lemma streaming_annotate_unreadable (env : Environment) (path : string)
    (s : State) :
  filesystem env path = None ->
  streaming_annotate env path s = (Raise (IOError path), s).
Proof.
  intros Hfs. unfold streaming_annotate, with_open, bind,
    StreamingVideoIntelligenceServiceClient, ret, open.
  now rewrite Hfs.
Qed.

(** What the transport takes from the request iterator of a file just
    opened. *)
Lemma pull_requests_opened (n : nat) (chunk_size : Z) (b : bytes) (s : State) :
  pull_requests n {| chunks := stream (length (files s)) chunk_size |}
    {| stdout := stdout s;
       files := files s ++ [{| fobj := opened b; closed := false |}];
       calls := calls s |} =
  (Ok (map input_content (fst (pull next n (stream (opened b) chunk_size)))),
   {| stdout := stdout s;
      files := files s ++
        [{| fobj := file_of (snd (pull next n (stream (opened b) chunk_size)));
            closed := false |}];
      calls := calls s |}).
Proof.
  unfold pull_requests, stream. cbn [chunks files].
  destruct n as [|n]; [reflexivity|].
  rewrite nth_error_snoc. cbn [closed fobj].
  rewrite pull_requests_step.
  unfold set_file. cbn [stdout files calls chunks].
  now rewrite set_nth_snoc.
Qed.

(** The run on a readable path, in full: how it ends, what it has printed,
    the file object it leaves and the remote invocation it has made. *)
Lemma streaming_annotate_readable (env : Environment) (path : string)
    (b : bytes) (s : State) :
  filesystem env path = Some b ->
  streaming_annotate env path s =
  (session_end 10800 (inbound env) (closing env),
   {| stdout := stdout s ++ header
                ++ printed (shot_lines (delivered 10800 (inbound env)));
      files := files s ++
        [{| fobj := file_of (snd (pull next (demand env)
                                    (stream (opened b) (5 * 1024 * 1024))));
            closed := true |}];
      calls := calls s ++
        [{| outbound :=
              shot_config_request
              :: map input_content
                   (fst (pull next (demand env)
                           (stream (opened b) (5 * 1024 * 1024))));
            timeout := 10800 |}] |}).
Proof.
  intros Hfs.
  unfold streaming_annotate, with_open.
  unfold bind at 1. unfold StreamingVideoIntelligenceServiceClient, ret.
  unfold bind at 1. unfold open at 1. rewrite Hfs.
  unfold finally, streaming_annotate_video.
  unfold bind at 1. unfold bind at 1.
  rewrite pull_requests_opened.
  unfold bind at 1. unfold record_call at 1. cbn [stdout files calls].
  unfold ret. unfold bind at 1. unfold print at 1. cbn [stdout files calls].
  unfold for_responses. cbn [deadline pending ending].
  rewrite for_responses_print. cbn [stdout files calls].
  unfold close. cbn [files]. rewrite nth_error_snoc.
  unfold set_file. cbn [stdout files calls fobj].
  rewrite set_nth_snoc. unfold header, shot_config_request.
  rewrite !append_assoc. reflexivity.
Qed.

(** ** The outbound messages *)

Lemma filter_is_config_chunks (sent : list bytes) :
  filter is_config (map input_content sent) = [].
Proof. induction sent as [|c sent IH]; [reflexivity | exact IH]. Qed.

(** C2.  For every readable input file, the empty file included, the run
    makes one remote invocation whose outbound messages begin with the
    configuration request; that request occurs exactly once; after it come
    the chunk requests, one per chunk, in the order the chunks are read: the
    first chunks that [stream] yields from the file, as many as the
    transport asked for, and all of them when it asked until the iterator
    was exhausted.  For the empty file the configuration request is the only
    message. *)
Theorem config_request_first_then_chunks (env : Environment) (path : string)
    (b : bytes) (s : State) :
  filesystem env path = Some b ->
  exists (call : rpc_call) (yielded : list bytes) (f' : file),
    calls (snd (streaming_annotate env path s)) = calls s ++ [call] /\
    exhaust next (S (length b)) (stream (opened b) (5 * 1024 * 1024))
      = Some (yielded, Returned f') /\
    concat yielded = b /\
    outbound call =
      shot_config_request
      :: map input_content (firstn (demand env) yielded) /\
    hd_error (outbound call) = Some shot_config_request /\
    filter is_config (outbound call) = [shot_config_request] /\
    ((length yielded <= demand env)%nat ->
     outbound call = shot_config_request :: map input_content yielded) /\
    (b = [] -> outbound call = [shot_config_request]).
Proof.
  intros Hfs.
  destruct (stream_remaining (5 * 1024 * 1024) (S (length b)) (opened b))
    as (ys & f' & E & _ & Hcat & _ & _ & Hne & _);
    [lia | cbn; lia |].
  change (remaining (opened b)) with b in Hcat.
  rewrite (streaming_annotate_readable env path b s Hfs). cbn [snd calls].
  rewrite (pull_exhaust next _ (demand env) _ _ _ E).
  eexists _, ys, f'. split; [reflexivity|]. cbn [outbound].
  split; [exact E|]. split; [exact Hcat|]. split; [reflexivity|].
  split; [reflexivity|]. split; [|split].
  - cbn [filter is_config shot_config_request].
    now rewrite filter_is_config_chunks.
  - intros Hall. now rewrite firstn_all2.
  - intros ->. now rewrite (concat_nonempty_nil ys Hne Hcat), firstn_nil.
Qed.

Lemma config_request_first_then_chunks_witness :
  exists (call : rpc_call) (yielded : list bytes) (f' : file),
    calls (snd (streaming_annotate
                  (small_env [Byte.x01; Byte.x02; Byte.x03; Byte.x04; Byte.x05])
                  "video.mp4" initial_state)) = [] ++ [call] /\
    exhaust next 6 (stream (opened [Byte.x01; Byte.x02; Byte.x03;
                                    Byte.x04; Byte.x05]) (5 * 1024 * 1024))
      = Some (yielded, Returned f') /\
    concat yielded = [Byte.x01; Byte.x02; Byte.x03; Byte.x04; Byte.x05] /\
    outbound call =
      shot_config_request :: map input_content (firstn 8 yielded) /\
    hd_error (outbound call) = Some shot_config_request /\
    filter is_config (outbound call) = [shot_config_request] /\
    ((length yielded <= 8)%nat ->
     outbound call = shot_config_request :: map input_content yielded) /\
    ([Byte.x01; Byte.x02; Byte.x03; Byte.x04; Byte.x05] = [] ->
     outbound call = [shot_config_request]).
Proof.
  apply (config_request_first_then_chunks
           (small_env [Byte.x01; Byte.x02; Byte.x03; Byte.x04; Byte.x05])
           "video.mp4" [Byte.x01; Byte.x02; Byte.x03; Byte.x04; Byte.x05]
           initial_state).
  reflexivity.
Defined.

(** The empty file: the session still sends the configuration request, and
    nothing else. *)
Lemma empty_file_sends_config_only (env : Environment) (path : string)
    (s : State) :
  filesystem env path = Some [] ->
  calls (snd (streaming_annotate env path s)) =
  calls s ++ [{| outbound := [shot_config_request]; timeout := 10800 |}].
Proof.
  intros Hfs. rewrite (streaming_annotate_readable env path [] s Hfs).
  cbn [snd calls]. destruct (demand env); reflexivity.
Qed.

(** C5.  [stream] takes the chunk size as an argument and
    [streaming_annotate] passes 5 * 1024 * 1024 bytes.  With it a file of 12
    MiB gives three chunks, of 5, 5 and 2 MiB, and a run whose transport
    takes all the requests sends four messages: the configuration request
    and, after it, the three chunk requests. *)
Theorem twelve_mib_file_four_messages (env : Environment) (path : string)
    (b : bytes) (s : State) :
  filesystem env path = Some b ->
  len b = 12 * 1024 * 1024 ->
  (3 <= demand env)%nat ->
  exists (c1 c2 c3 : bytes) (f' : file) (call : rpc_call),
    exhaust next (S (length b)) (stream (opened b) (5 * 1024 * 1024))
      = Some ([c1; c2; c3], Returned f') /\
    len c1 = 5 * 1024 * 1024 /\
    len c2 = 5 * 1024 * 1024 /\
    len c3 = 2 * 1024 * 1024 /\
    c1 ++ c2 ++ c3 = b /\
    calls (snd (streaming_annotate env path s)) = calls s ++ [call] /\
    outbound call =
      [shot_config_request; input_content c1; input_content c2;
       input_content c3] /\
    length (outbound call) = 4%nat.
Proof.
  intros Hfs Hlen Hdemand.
  destruct (stream_remaining (5 * 1024 * 1024) (S (length b)) (opened b))
    as (ys & f' & E & _ & Hcat & Hcount & Hfull & _ & Hlast);
    [lia | cbn; lia |].
  change (remaining (opened b)) with b in *.
  rewrite Hlen in Hcount, Hlast.
  change (ceil_div (12 * 1024 * 1024) (5 * 1024 * 1024)) with 3 in Hcount.
  change ((12 * 1024 * 1024) mod (5 * 1024 * 1024) =? 0) with false in Hlast.
  change ((12 * 1024 * 1024) mod (5 * 1024 * 1024)) with (2 * 1024 * 1024)
    in Hlast.
  destruct ys as [|c1 [|c2 [|c3 [|c4 ys]]]];
    try (unfold len in Hcount; cbn [length] in Hcount; lia).
  cbn [removelast] in Hfull. specialize (Hlast ltac:(discriminate)).
  cbn [last] in Hlast.
  inversion Hfull as [|? ? H1 Hfull']; subst.
  inversion Hfull' as [|? ? H2 _]; subst.
  rewrite (streaming_annotate_readable env path _ s Hfs). cbn [snd calls].
  rewrite (pull_exhaust next _ (demand env) _ _ _ E).
  rewrite firstn_all2 by (cbn [length]; lia).
  exists c1, c2, c3, f'. eexists.
  split; [exact E|]. split; [exact H1|]. split; [exact H2|].
  split; [exact Hlast|]. split.
  - cbn [concat]. now rewrite app_nil_r.
  - split; [reflexivity|]. split; reflexivity.
Qed.

Lemma twelve_mib_file_four_messages_witness :
  exists (c1 c2 c3 : bytes) (f' : file) (call : rpc_call),
    exhaust next (S (length twelve_mib))
            (stream (opened twelve_mib) (5 * 1024 * 1024))
      = Some ([c1; c2; c3], Returned f') /\
    len c1 = 5 * 1024 * 1024 /\
    len c2 = 5 * 1024 * 1024 /\
    len c3 = 2 * 1024 * 1024 /\
    c1 ++ c2 ++ c3 = twelve_mib /\
    calls (snd (streaming_annotate (small_env twelve_mib) "video.mp4"
                  initial_state)) = calls initial_state ++ [call] /\
    outbound call =
      [shot_config_request; input_content c1; input_content c2;
       input_content c3] /\
    length (outbound call) = 4%nat.
Proof.
  apply (twelve_mib_file_four_messages (small_env twelve_mib) "video.mp4"
           twelve_mib initial_state).
  - reflexivity.
  - unfold len, twelve_mib. rewrite repeat_length. apply Z2Nat.id. discriminate.
  - unfold small_env. cbn [demand]. lia.
Defined.

(** ** The responses *)

Lemma delivered_on_time (deadline : Z)
    (pending : list (Z * StreamingAnnotateVideoResponse)) :
  Forall (fun p => fst p <= deadline) pending ->
  delivered deadline pending = map snd pending.
Proof.
  induction 1 as [|[idle r] rest Hle _ IH]; [reflexivity|].
  cbn [delivered map snd fst] in *.
  destruct (Z.ltb_spec deadline idle); [lia | now rewrite IH].
Qed.

(** C3.  Whatever the remote side delivers, the loop body runs once for each
    delivered response, in the order of delivery, before the loop ends the
    way the session ends; and what the run prints after the header is, for
    each delivered response in that order, the line of each annotation in
    the order in which the response holds them: nothing is reordered,
    dropped or merged.  When every response arrives within the timeout, the
    delivered responses are all the responses the remote side sent. *)
Theorem responses_handled_in_order (env : Environment) (path : string)
    (b : bytes) (s : State) :
  filesystem env path = Some b ->
  (forall (body : StreamingAnnotateVideoResponse -> M unit) (s0 : State),
     for_responses
       {| pending := inbound env; ending := closing env; deadline := 10800 |}
       body s0 =
     match for_ (delivered 10800 (inbound env)) body s0 with
     | (Ok _, s') => (session_end 10800 (inbound env) (closing env), s')
     | (Raise e, s') => (Raise e, s')
     end) /\
  stdout (snd (streaming_annotate env path s)) =
    (stdout s ++ header
     ++ printed
          (flat_map
             (fun response =>
                map shot_line (shot_annotations (annotation_results response)))
             (delivered 10800 (inbound env))))%string /\
  (Forall (fun p => fst p <= 10800) (inbound env) ->
   delivered 10800 (inbound env) = map snd (inbound env)).
Proof.
  intros Hfs. split; [|split].
  - intros body s0. unfold for_responses. cbn [pending ending deadline].
    apply for_responses_from_body.
  - now rewrite (streaming_annotate_readable env path b s Hfs).
  - apply delivered_on_time.
Qed.

Lemma responses_handled_in_order_witness :
  stdout (snd (streaming_annotate sample_env "video.mp4" initial_state)) =
  (newline ++ "Reading response." ++ newline
   ++ "Shot: 0.0s to 4.170837s" ++ newline
   ++ "Shot: 4.204204s to 7.107107s" ++ newline
   ++ "Shot: 7.140473s to 11.778445s" ++ newline)%string.
Proof.
  rewrite (proj1 (proj2 (responses_handled_in_order sample_env "video.mp4"
                           [Byte.x01; Byte.x02; Byte.x03; Byte.x04; Byte.x05]
                           initial_state eq_refl))).
  vm_compute. reflexivity.
Defined.

(** ** The printed line *)

(** *** Decimal digits of a fraction *)

Lemma pow10_pos (u : Z) : 0 <= u -> 0 < 10 ^ u.
Proof. intros. apply Z.pow_pos_nonneg; lia. Qed.

Lemma pow10_succ (d : Z) : 1 <= d -> 10 ^ d = 10 * 10 ^ (d - 1).
Proof.
  intros Hd. replace d with (Z.succ (d - 1)) at 1 by lia.
  apply Z.pow_succ_r. lia.
Qed.

Lemma pow10_add (u v : Z) : 0 <= u -> 0 <= v -> 10 ^ (u + v) = 10 ^ u * 10 ^ v.
Proof. intros. now apply Z.pow_add_r. Qed.

Lemma digits10_aux_spec (fuel : nat) :
  forall n, 0 < n < 2 ^ Z.of_nat fuel ->
    1 <= digits10_aux fuel n /\
    10 ^ (digits10_aux fuel n - 1) <= n < 10 ^ digits10_aux fuel n.
Proof.
  induction fuel as [|fuel IH]; intros n Hn.
  - cbn in Hn. lia.
  - cbn [digits10_aux]. destruct (Z.ltb_spec n 10) as [L|L].
    + cbn. lia.
    + rewrite Nat2Z.inj_succ, Z.pow_succ_r in Hn by lia.
      assert (H1 : 0 < n / 10) by (apply Z.div_str_pos; lia).
      assert (H2 : n / 10 < 2 ^ Z.of_nat fuel).
      { apply Z.div_lt_upper_bound; lia. }
      destruct (IH (n / 10) (conj H1 H2)) as (Hd & Hlo & Hhi).
      set (d := digits10_aux fuel (n / 10)) in *.
      pose proof (Z.div_mod n 10 ltac:(lia)) as E.
      pose proof (Z.mod_pos_bound n 10 ltac:(lia)) as B.
      replace (1 + d - 1) with d by lia.
      rewrite (pow10_succ (1 + d)) by lia. replace (1 + d - 1) with d by lia.
      rewrite (pow10_succ d) in * by lia.
      split; [lia|]. split; lia.
Qed.

Lemma digits10_spec (n : Z) :
  0 < n -> 1 <= digits10 n /\ 10 ^ (digits10 n - 1) <= n < 10 ^ digits10 n.
Proof.
  intros Hn. unfold digits10. apply digits10_aux_spec.
  split; [exact Hn|].
  rewrite Nat2Z.inj_succ, Z2Nat.id by apply Z.log2_nonneg.
  apply Z.log2_spec, Hn.
Qed.

Lemma scale10_pos (a b p : Z) :
  0 < a -> 0 < b -> 0 < fst (scale10 a b p) /\ 0 < snd (scale10 a b p).
Proof.
  intros Ha Hb. unfold scale10. destruct (Z.leb_spec 0 p); cbn [fst snd].
  - pose proof (pow10_pos p ltac:(lia)). split; [nia | lia].
  - pose proof (pow10_pos (- p) ltac:(lia)). split; [lia | nia].
Qed.

Lemma scale10_up (a b p : Z) : 0 <= p -> scale10 a b p = (a * 10 ^ p, b).
Proof. intros. unfold scale10. destruct (Z.leb_spec 0 p); [reflexivity | lia]. Qed.

Lemma scale10_down (a b p : Z) :
  p < 0 -> scale10 a b p = (a, b * 10 ^ (- p)).
Proof. intros. unfold scale10. destruct (Z.leb_spec 0 p); [lia | reflexivity]. Qed.

Lemma exponent10_cases (a b : Z) :
  exponent10 a b =
  if snd (scale10 a b (- (digits10 a - digits10 b)))
     <=? fst (scale10 a b (- (digits10 a - digits10 b)))
  then digits10 a - digits10 b else digits10 a - digits10 b - 1.
Proof.
  unfold exponent10.
  now destruct (scale10 a b (- (digits10 a - digits10 b))) as [a' b'].
Qed.

(** [exponent10 a b] is the decimal exponent of [a / b]: scaled by it, the
    fraction lies in [1, 10). *)
Lemma exponent10_spec (a b : Z) :
  0 < a -> 0 < b ->
  snd (scale10 a b (- exponent10 a b)) <= fst (scale10 a b (- exponent10 a b))
  /\ fst (scale10 a b (- exponent10 a b))
     < 10 * snd (scale10 a b (- exponent10 a b)).
Proof.
  intros Ha Hb. rewrite exponent10_cases.
  destruct (digits10_spec a Ha) as (Hda & Ha1 & Ha2).
  destruct (digits10_spec b Hb) as (Hdb & Hb1 & Hb2).
  set (da := digits10 a) in *. set (db := digits10 b) in *.
  rewrite (pow10_succ da) in Ha2 by lia.
  rewrite (pow10_succ db) in Hb2 by lia.
  destruct (Z.le_gt_cases da db) as [L|L].
  - (* a has no more digits than b: a is scaled up *)
    assert (E : 10 ^ (db - 1) = 10 ^ (da - 1) * 10 ^ (db - da)).
    { rewrite <- pow10_add by lia. f_equal. lia. }
    pose proof (pow10_pos (db - da) ltac:(lia)) as Hp.
    pose proof (pow10_pos (da - 1) ltac:(lia)) as Hq.
    rewrite (scale10_up a b (- (da - db))) by lia. cbn [fst snd].
    replace (- (da - db)) with (db - da) by lia.
    destruct (Z.leb_spec b (a * 10 ^ (db - da))) as [C|C].
    + rewrite scale10_up by lia. cbn [fst snd].
      replace (- (da - db)) with (db - da) by lia.
      split; [exact C | nia].
    + rewrite scale10_up by lia. cbn [fst snd].
      replace (- (da - db - 1)) with (Z.succ (db - da)) by lia.
      rewrite Z.pow_succ_r by lia. split; nia.
  - (* a has more digits than b: b is scaled up *)
    assert (E : 10 ^ (da - 1) = 10 ^ (db - 1) * 10 ^ (da - db)).
    { rewrite <- pow10_add by lia. f_equal. lia. }
    pose proof (pow10_pos (da - db) ltac:(lia)) as Hp.
    pose proof (pow10_pos (db - 1) ltac:(lia)) as Hq.
    rewrite (scale10_down a b (- (da - db))) by lia. cbn [fst snd].
    replace (- - (da - db)) with (da - db) by lia.
    destruct (Z.leb_spec (b * 10 ^ (da - db)) a) as [C|C].
    + rewrite scale10_down by lia. cbn [fst snd].
      replace (- - (da - db)) with (da - db) by lia.
      split; [exact C | nia].
    + rewrite (pow10_succ (da - db)) in * by lia.
      pose proof (pow10_pos (da - db - 1) ltac:(lia)) as Hr.
      destruct (Z.eq_dec (da - db) 1) as [One|More].
      * rewrite scale10_up by lia. cbn [fst snd].
        replace (- (da - db - 1)) with 0 by lia.
        replace (da - db - 1) with 0 in * by lia.
        change (10 ^ 0) with 1 in *. split; nia.
      * rewrite scale10_down by lia. cbn [fst snd].
        replace (- - (da - db - 1)) with (da - db - 1) by lia. split; nia.
Qed.

Lemma scale10_shift (a b q k : Z) :
  0 <= k ->
  fst (scale10 a b (q + k)) * snd (scale10 a b q)
  = 10 ^ k * fst (scale10 a b q) * snd (scale10 a b (q + k)).
Proof.
  intros Hk. destruct (Z.le_gt_cases 0 q) as [Hq|Hq].
  - rewrite !scale10_up by lia. cbn [fst snd].
    rewrite pow10_add by lia. ring.
  - rewrite (scale10_down a b q) by lia.
    destruct (Z.le_gt_cases 0 (q + k)) as [Hs|Hs].
    + rewrite scale10_up by lia. cbn [fst snd].
      replace (10 ^ k) with (10 ^ ((q + k) + - q)) by (f_equal; lia).
      rewrite (pow10_add (q + k) (- q)) by lia. ring.
    + rewrite scale10_down by lia. cbn [fst snd].
      replace (10 ^ (- q)) with (10 ^ (k + - (q + k))) by (f_equal; lia).
      rewrite (pow10_add k (- (q + k))) by lia. ring.
Qed.

(** [round_digits k a b] is [a / b] rounded to [k] significant digits: at
    the scale of its last digit the fraction lies in [10^(k-1), 10^k) and
    the digits differ from it by at most one half. *)
Lemma round_digits_spec (k a b : Z) :
  1 <= k -> 0 < a -> 0 < b ->
  snd (round_digits k a b) = exponent10 a b - (k - 1) /\
  0 < snd (scale10 a b (- snd (round_digits k a b))) /\
  10 ^ (k - 1) * snd (scale10 a b (- snd (round_digits k a b)))
    <= fst (scale10 a b (- snd (round_digits k a b)))
    < 10 ^ k * snd (scale10 a b (- snd (round_digits k a b))) /\
  2 * Z.abs (fst (scale10 a b (- snd (round_digits k a b)))
             - fst (round_digits k a b)
               * snd (scale10 a b (- snd (round_digits k a b))))
    <= snd (scale10 a b (- snd (round_digits k a b))) /\
  10 ^ (k - 1) <= fst (round_digits k a b) <= 10 ^ k.
Proof.
  intros Hk Ha Hb.
  assert (Hp : snd (round_digits k a b) = exponent10 a b - (k - 1)).
  { unfold round_digits.
    destruct (scale10 a b (- (exponent10 a b - (k - 1)))) as [a' b'].
    destruct (2 * (a' mod b') ?= b'); [destruct (Z.even (a' / b'))| |];
      reflexivity. }
  rewrite Hp. split; [reflexivity|].
  destruct (exponent10_spec a b Ha Hb) as (H1 & H2).
  pose proof (scale10_shift a b (- exponent10 a b) (k - 1) ltac:(lia)) as Hs.
  replace (- exponent10 a b + (k - 1)) with (- (exponent10 a b - (k - 1)))
    in Hs by lia.
  destruct (scale10_pos a b (- exponent10 a b) Ha Hb) as (Pa1 & Pb1).
  destruct (scale10_pos a b (- (exponent10 a b - (k - 1))) Ha Hb) as (Pa & Pb).
  unfold round_digits.
  set (a1 := fst (scale10 a b (- exponent10 a b))) in *.
  set (b1 := snd (scale10 a b (- exponent10 a b))) in *.
  destruct (scale10 a b (- (exponent10 a b - (k - 1)))) as [a' b'] eqn:E.
  cbn [fst snd] in *.
  pose proof (pow10_pos (k - 1) ltac:(lia)) as Hpow.
  rewrite (pow10_succ k) by lia.
  set (t := 10 ^ (k - 1)) in *.
  assert (Hlo : t * b' <= a') by nia.
  assert (Hhi : a' < 10 * t * b') by nia.
  pose proof (Z.div_mod a' b' ltac:(lia)) as D.
  pose proof (Z.mod_pos_bound a' b' Pb) as B.
  set (q := a' / b') in *. set (r := a' mod b') in *.
  assert (Hq1 : t <= q) by nia.
  assert (Hq2 : q < 10 * t) by nia.
  split; [exact Pb|]. split; [lia|].
  destruct (Z.compare_spec (2 * r) b') as [C|C|C];
    [destruct (Z.even q)| |]; cbn [fst snd]; split; lia || nia.
Qed.

(** A finite float is a positive fraction. *)
Lemma fraction_pos (m : positive) (e : Z) :
  0 < fst (fraction m e) /\ 0 < snd (fraction m e).
Proof.
  unfold fraction. destruct (Z.leb_spec 0 e); cbn [fst snd].
  - pose proof (Z.pow_pos_nonneg 2 e ltac:(lia) ltac:(lia)). split; nia.
  - pose proof (Z.pow_pos_nonneg 2 (- e) ltac:(lia) ltac:(lia)). split; lia.
Qed.

(** C4, as the code has it.  For every annotation, one pass of the inner
    loop prints the line [Shot: <start>s to <end>s], where each offset is
    the text that [str] gives for the float [seconds + nanos / 1e9].  That
    text holds the float rounded to 12 significant digits: for a finite
    float [m * 2 ^ e] the digits printed are [n] at the scale [10 ^ p],
    where the float divided by [10 ^ p], the fraction [a' / b'], lies
    between [10 ^ 11] and [10 ^ 12] and differs from [n] by one half at
    most.  The annotation from 0 s 170837000 ns to 4 s 170837000 ns is
    printed as [Shot: 0.170837s to 4.170837s], and there the text loses
    nothing: the two floats are the floats nearest to 0.170837 and
    4.170837, and the shortest text that reads back as these floats is the
    same. *)
Theorem shot_line_rendering :
  (forall (annotation : VideoSegment) (s : State),
     print_shot annotation s =
     (Ok tt,
      {| stdout :=
           stdout s
           ++ ("Shot: "
               ++ float_str
                    (float_add
                       (float_of_int (seconds (start_time_offset annotation)))
                       (float_div
                          (float_of_int (nanos (start_time_offset annotation)))
                          _1e9))
               ++ "s to "
               ++ float_str
                    (float_add
                       (float_of_int (seconds (end_time_offset annotation)))
                       (float_div
                          (float_of_int (nanos (end_time_offset annotation)))
                          _1e9))
               ++ "s")
           ++ newline;
         files := files s; calls := calls s |})) /\
  (forall (s : bool) (m : positive) (e : Z),
     exists n p a' b' : Z,
       float_str (S754_finite s m e)
         = signed s (format_float_short 11 (n, p)) /\
       scale10 (fst (fraction m e)) (snd (fraction m e)) (- p) = (a', b') /\
       0 < b' /\
       10 ^ 11 * b' <= a' < 10 ^ 12 * b' /\
       2 * Z.abs (a' - n * b') <= b' /\
       10 ^ 11 <= n <= 10 ^ 12) /\
  shot_line (shot 0 170837000 4 170837000)
    = "Shot: 0.170837s to 4.170837s"%string /\
  stdout (snd (print_shot (shot 0 170837000 4 170837000) initial_state))
    = ("Shot: 0.170837s to 4.170837s" ++ newline)%string /\
  offset_value {| seconds := 0; nanos := 170837000 |}
    = float_of_decimal 170837 (-6) /\
  offset_value {| seconds := 4; nanos := 170837000 |}
    = float_of_decimal 4170837 (-6) /\
  float_repr (offset_value {| seconds := 0; nanos := 170837000 |})
    = "0.170837"%string /\
  float_repr (offset_value {| seconds := 4; nanos := 170837000 |})
    = "4.170837"%string.
Proof.
  split; [|split; [|repeat split; vm_compute; reflexivity]].
  - intros annotation s. apply print_shot_line.
  - intros s m e.
    destruct (fraction_pos m e) as (Ha & Hb).
    destruct (round_digits_spec 12 (fst (fraction m e)) (snd (fraction m e))
                ltac:(lia) Ha Hb) as (_ & Pb & Hrange & Herr & Hn).
    exists (fst (round_digits 12 (fst (fraction m e)) (snd (fraction m e)))),
           (snd (round_digits 12 (fst (fraction m e)) (snd (fraction m e)))),
           (fst (scale10 (fst (fraction m e)) (snd (fraction m e))
                   (- snd (round_digits 12 (fst (fraction m e))
                                        (snd (fraction m e)))))),
           (snd (scale10 (fst (fraction m e)) (snd (fraction m e))
                   (- snd (round_digits 12 (fst (fraction m e))
                                        (snd (fraction m e)))))).
    split; [|split; [|split; [|split; [|split]]]].
    + cbn [float_str]. destruct (fraction m e) as [a b]. cbn [fst snd].
      now rewrite <- surjective_pairing.
    + now rewrite <- surjective_pairing.
    + exact Pb.
    + exact Hrange.
    + exact Herr.
    + exact Hn.
Qed.

(** C4, as stated, fails: the text is not free of rounding beyond float
    precision.  The offsets 1000 s 1 ns and 1000 s 2 ns are two different
    floats, neither of them the float 1000, yet both are printed as
    [1000.0]; the shortest text that reads back as the first is
    [1000.000000001]. *)
Lemma shot_line_rounds_nanoseconds :
  shot_line (shot 1000 1 1000 2) = "Shot: 1000.0s to 1000.0s"%string /\
  offset_value {| seconds := 1000; nanos := 1 |}
    <> offset_value {| seconds := 1000; nanos := 2 |} /\
  offset_value {| seconds := 1000; nanos := 1 |} <> float_of_decimal 1000 0 /\
  float_repr (offset_value {| seconds := 1000; nanos := 1 |})
    = "1000.000000001"%string.
Proof. repeat split; vm_compute; (reflexivity || discriminate). Qed.

(** ** Failures *)

Lemma delivered_before_late (deadline idle : Z)
    (before after : list (Z * StreamingAnnotateVideoResponse))
    (late : StreamingAnnotateVideoResponse) :
  Forall (fun p => fst p <= deadline) before ->
  deadline < idle ->
  delivered deadline (before ++ (idle, late) :: after) = map snd before.
Proof.
  intros Hb Hlate. induction Hb as [|[i r] rest Hle _ IH].
  - cbn. destruct (Z.ltb_spec deadline idle); [reflexivity | lia].
  - cbn [app delivered map snd fst] in *.
    destruct (Z.ltb_spec deadline i); [lia | now rewrite IH].
Qed.

Lemma session_end_late_response (deadline idle : Z)
    (before after : list (Z * StreamingAnnotateVideoResponse))
    (late : StreamingAnnotateVideoResponse) (ending : Z * option string) :
  Forall (fun p => fst p <= deadline) before ->
  deadline < idle ->
  session_end deadline (before ++ (idle, late) :: after) ending
  = Raise DeadlineExceeded.
Proof.
  intros Hb Hlate. induction Hb as [|[i r] rest Hle _ IH].
  - cbn. destruct (Z.ltb_spec deadline idle); [reflexivity | lia].
  - cbn [app session_end fst] in *.
    destruct (Z.ltb_spec deadline i); [lia | exact IH].
Qed.

Lemma session_end_on_time (deadline : Z)
    (pending : list (Z * StreamingAnnotateVideoResponse))
    (ending : Z * option string) :
  Forall (fun p => fst p <= deadline) pending ->
  session_end deadline pending ending =
  if deadline <? fst ending then Raise DeadlineExceeded
  else match snd ending with
       | Some details => Raise (TransportFailure details)
       | None => Ok tt
       end.
Proof.
  induction 1 as [|[i r] rest Hle _ IH]; [reflexivity|].
  cbn [session_end fst] in *.
  destruct (Z.ltb_spec deadline i); [lia | exact IH].
Qed.

(** C6.  The call is given the timeout 10800 seconds.  When the responses
    [before] arrive within it and then either a response or the end of the
    stream takes longer, the run ends with DeadlineExceeded, which is not a
    transport failure; the lines printed are those of the responses that
    arrived in time and no others; and the run has made one remote
    invocation, with no second attempt. *)
Theorem deadline_exceeded_ends_run (env : Environment) (path : string)
    (b : bytes) (s : State)
    (before : list (Z * StreamingAnnotateVideoResponse)) (idle : Z) :
  filesystem env path = Some b ->
  Forall (fun p => fst p <= 10800) before ->
  10800 < idle ->
  (exists late after, inbound env = before ++ (idle, late) :: after) \/
  (inbound env = before /\ fst (closing env) = idle) ->
  fst (streaming_annotate env path s) = Raise DeadlineExceeded /\
  (forall details,
     fst (streaming_annotate env path s) <> Raise (TransportFailure details)) /\
  stdout (snd (streaming_annotate env path s)) =
    (stdout s ++ header ++ printed (shot_lines (map snd before)))%string /\
  exists sent,
    calls (snd (streaming_annotate env path s)) =
    calls s ++ [{| outbound := shot_config_request :: sent; timeout := 10800 |}].
Proof.
  intros Hfs Hbefore Hidle Hlate.
  rewrite (streaming_annotate_readable env path b s Hfs). cbn [fst snd stdout calls].
  assert (Hend : session_end 10800 (inbound env) (closing env)
                 = Raise DeadlineExceeded).
  { destruct Hlate as [(late & after & ->) | [-> Hclose]].
    - now apply session_end_late_response.
    - rewrite session_end_on_time by exact Hbefore.
      destruct (Z.ltb_spec 10800 (fst (closing env))); [reflexivity | lia]. }
  assert (Hdel : delivered 10800 (inbound env) = map snd before).
  { destruct Hlate as [(late & after & ->) | [-> Hclose]].
    - now apply delivered_before_late.
    - now apply delivered_on_time. }
  rewrite Hend, Hdel.
  split; [reflexivity|]. split; [discriminate|]. split; [reflexivity|].
  eexists. reflexivity.
Qed.

Lemma deadline_exceeded_ends_run_witness :
  fst (streaming_annotate slow_env "video.mp4" initial_state)
    = Raise DeadlineExceeded /\
  stdout (snd (streaming_annotate slow_env "video.mp4" initial_state)) =
    (newline ++ "Reading response." ++ newline
     ++ "Shot: 0.0s to 4.170837s" ++ newline)%string.
Proof.
  destruct (deadline_exceeded_ends_run slow_env "video.mp4"
              [Byte.x01; Byte.x02; Byte.x03] initial_state
              [(3, response_of [shot 0 0 4 170837000])] 14400)
    as (Hr & _ & Hout & _).
  - reflexivity.
  - constructor; [cbn; lia | constructor].
  - lia.
  - left. eexists _, _. reflexivity.
  - split; [exact Hr|]. rewrite Hout. vm_compute. reflexivity.
Defined.

(** A transport failure reaches the caller as itself. *)
Lemma transport_failure_propagates (env : Environment) (path : string)
    (b : bytes) (s : State) (idle : Z) (details : string) :
  filesystem env path = Some b ->
  Forall (fun p => fst p <= 10800) (inbound env) ->
  closing env = (idle, Some details) ->
  idle <= 10800 ->
  fst (streaming_annotate env path s) = Raise (TransportFailure details).
Proof.
  intros Hfs Hin Hclose Hidle.
  rewrite (streaming_annotate_readable env path b s Hfs). cbn [fst].
  rewrite session_end_on_time by exact Hin. rewrite Hclose. cbn [fst snd].
  destruct (Z.ltb_spec 10800 idle); [lia | reflexivity].
Qed.

(** C7.  When the path cannot be opened, [streaming_annotate] raises the
    IOError of [open] at once: the state is as it was, so no remote
    invocation has been made and nothing has been printed; the process ends
    with exit status 1, not 0, and shows that IOError; nothing is retried. *)
Theorem unreadable_file_fails_before_any_call (env : Environment)
    (path : string) :
  filesystem env path = None ->
  (forall s, streaming_annotate env path s = (Raise (IOError path), s)) /\
  main env path =
    {| exit_status := 1; traceback := Some (IOError path);
       final := initial_state |} /\
  exit_status (main env path) <> 0 /\
  calls (final (main env path)) = [].
Proof.
  intros Hfs.
  assert (H : forall s, streaming_annotate env path s = (Raise (IOError path), s))
    by (intros s; now apply streaming_annotate_unreadable).
  split; [exact H|]. unfold main. rewrite H. cbn.
  repeat split. discriminate.
Qed.

Lemma unreadable_file_fails_before_any_call_witness :
  main no_file_env "missing.mp4" =
    {| exit_status := 1; traceback := Some (IOError "missing.mp4");
       final := initial_state |}.
Proof.
  apply (unreadable_file_fails_before_any_call no_file_env "missing.mp4").
  reflexivity.
Defined.

(** ** The file handle *)

Lemma filter_snoc_closed (l : list file_object) (f : file) :
  filter (fun o => negb (closed o)) (l ++ [{| fobj := f; closed := true |}])
  = filter (fun o => negb (closed o)) l.
Proof. rewrite filter_app. cbn. apply app_nil_r. Qed.

(** C8.  However the run of [streaming_annotate] ends, whatever the
    transport took from the request iterator and whatever the remote side
    did, the file object that the run opened is closed when the run is
    over: the run leaves the earlier file objects as they were, adds the one
    it opened, closed, when the path can be opened, and adds none when it
    cannot; so the file objects open after the run are those open before
    it. *)
Theorem file_closed_on_every_exit (env : Environment) (path : string)
    (s : State) :
  (forall b, filesystem env path = Some b ->
     exists f, files (snd (streaming_annotate env path s))
               = files s ++ [{| fobj := f; closed := true |}]) /\
  (filesystem env path = None ->
     files (snd (streaming_annotate env path s)) = files s) /\
  open_files (snd (streaming_annotate env path s)) = open_files s.
Proof.
  split; [|split].
  - intros b Hfs. rewrite (streaming_annotate_readable env path b s Hfs).
    cbn [snd files]. eexists. reflexivity.
  - intros Hfs. now rewrite (streaming_annotate_unreadable env path s Hfs).
  - destruct (filesystem env path) as [b|] eqn:Hfs.
    + rewrite (streaming_annotate_readable env path b s Hfs).
      unfold open_files. cbn [snd files]. apply filter_snoc_closed.
    + now rewrite (streaming_annotate_unreadable env path s Hfs).
Qed.

(** ** No response *)

(** C9, as the code has it.  When the remote side sends no response and
    closes the stream cleanly and in time, the run prints the text of its
    one [print] of the header, which is an empty line and then the line
    [Reading response.], and nothing after it, and the process exits with
    status 0. *)
Theorem no_response_prints_header_only (env : Environment) (path : string)
    (b : bytes) (idle : Z) :
  filesystem env path = Some b ->
  inbound env = [] ->
  closing env = (idle, None) ->
  idle <= 10800 ->
  exit_status (main env path) = 0 /\
  traceback (main env path) = None /\
  stdout (final (main env path))
    = (newline ++ "Reading response." ++ newline)%string /\
  output_lines (stdout (final (main env path)))
    = [EmptyString; "Reading response."%string].
Proof.
  intros Hfs Hin Hclose Hidle. unfold main.
  rewrite (streaming_annotate_readable env path b initial_state Hfs).
  rewrite Hin, Hclose. cbn [session_end fst snd].
  destruct (Z.ltb_spec 10800 idle); [lia|].
  cbn [exit_status traceback final stdout delivered shot_lines flat_map printed].
  repeat split.
Qed.

Lemma no_response_prints_header_only_witness :
  exit_status (main (small_env [Byte.x01; Byte.x02; Byte.x03]) "video.mp4") = 0 /\
  output_lines
    (stdout (final (main (small_env [Byte.x01; Byte.x02; Byte.x03])
                         "video.mp4")))
    = [EmptyString; "Reading response."%string].
Proof.
  destruct (no_response_prints_header_only
              (small_env [Byte.x01; Byte.x02; Byte.x03]) "video.mp4"
              [Byte.x01; Byte.x02; Byte.x03] 0)
    as (Hexit & _ & _ & Hlines).
  - reflexivity.
  - reflexivity.
  - reflexivity.
  - lia.
  - split; [exact Hexit | exact Hlines].
Defined.

(** C9, as stated, fails: on a readable file with no response and a clean
    close, the output is not the single line [Reading response.]: an empty
    line comes before it. *)
Lemma no_response_output_is_two_lines :
  ~ (exit_status (main (small_env []) "video.mp4") = 0 /\
     output_lines (stdout (final (main (small_env []) "video.mp4")))
       = ["Reading response."%string]).
Proof. intros [_ H]. vm_compute in H. discriminate H. Qed.

(** * Further properties of [stream] *)

Section StreamReads.
Context {F : Type} `{FileLike F}.

Lemma nth_read_succ (k : nat) (file_object : F) (chunk_size : Z) :
  nth_read (S k) file_object chunk_size
  = nth_read k (snd (read file_object chunk_size)) chunk_size.
Proof. reflexivity. Qed.

(** Once a generator has said StopIteration it says so again. *)
Lemma next_none_stays (g g' : generator F) :
  next g = (None, g') -> next g' = (None, g').
Proof.
  destruct g as [fo cs|fo]; cbn [next].
  - destruct (read fo cs) as [data fo']. destruct (not_ data).
    + now intros [= <-].
    + discriminate.
  - now intros [= <-].
Qed.

Lemma stream_reads_until_empty (n : nat) (chunk_size : Z) :
  forall file_object : F,
    (forall k, (k < n)%nat -> nth_read k file_object chunk_size <> []) ->
    nth_read n file_object chunk_size = [] ->
    exists g' : generator F,
      exhaust next (S n) (stream file_object chunk_size)
        = Some (map (fun k => nth_read k file_object chunk_size) (seq 0 n), g')
      /\ next g' = (None, g').
Proof.
  unfold stream. induction n as [|n IH]; intros fo Hfull Hempty.
  - cbn [nth_read] in Hempty. cbn [exhaust next seq map].
    destruct (read fo chunk_size) as [data fo']. cbn [fst] in Hempty.
    subst data. cbn [not_]. exists (Returned fo'). split; reflexivity.
  - assert (H0 : nth_read 0 fo chunk_size <> []) by (apply Hfull; lia).
    rewrite nth_read_succ in Hempty.
    destruct (IH (snd (read fo chunk_size))) as (g' & E & Hstay).
    { intros k Hk. rewrite <- nth_read_succ. apply Hfull. lia. }
    { exact Hempty. }
    exists g'. split; [|exact Hstay].
    remember (S n) as fuel. cbn [exhaust next].
    cbn [nth_read] in H0.
    destruct (read fo chunk_size) as [data fo'] eqn:R. cbn [fst snd] in *.
    destruct data as [|d data']; [congruence|]. cbn [not_].
    subst fuel. rewrite E. cbn [seq map nth_read]. rewrite R. cbn [fst].
    rewrite <- seq_shift, map_map. do 3 f_equal.
    apply map_ext. intros k. cbn [nth_read]. now rewrite R.
Qed.

(** Wrapping the file object in a counter changes nothing in what [stream]
    yields, and the counter advances by one for each chunk and one more. *)
Lemma exhaust_counting (chunk_size : Z) (fuel : nat) :
  forall (file_object file_object' : F) (k : nat) (yielded : list bytes),
    exhaust next fuel (stream file_object chunk_size)
      = Some (yielded, Returned file_object') ->
    exhaust next fuel
      (stream {| wrapped := file_object; reads := k |} chunk_size)
    = Some (yielded,
            Returned {| wrapped := file_object';
                        reads := k + length yielded + 1 |}).
Proof.
  unfold stream. induction fuel as [|fuel IH]; intros fo fo' k ys E;
    [discriminate|].
  cbn [exhaust next read counting_FileLike wrapped reads] in *.
  destruct (read fo chunk_size) as [data fo1].
  destruct data as [|d data']; cbn [not_] in *.
  - injection E as <- <-. cbn [length].
    now replace (k + 0 + 1)%nat with (S k) by lia.
  - destruct (exhaust next fuel (Suspended fo1 chunk_size))
      as [[rest g1]|] eqn:E1; [|discriminate].
    injection E as <- ->.
    rewrite (IH fo1 fo' (S k) rest E1). cbn [length].
    now replace (S k + length rest + 1)%nat with (k + S (length rest) + 1)%nat
      by lia.
Qed.
End StreamReads.

(** X1.  For any file object, when the reads before read number [n] return
    data and read number [n] returns none, [stream] yields exactly the data
    of reads 0 to [n - 1], unchanged and in that order, and then stays
    exhausted. *)
Theorem stream_yields_the_reads {F : Type} `{FileLike F}
    (file_object : F) (chunk_size : Z) (n : nat) :
  (forall k, (k < n)%nat -> nth_read k file_object chunk_size <> []) ->
  nth_read n file_object chunk_size = [] ->
  exists g' : generator F,
    exhaust next (S n) (stream file_object chunk_size)
      = Some (map (fun k => nth_read k file_object chunk_size) (seq 0 n), g')
    /\ next g' = (None, g').
Proof. intros Hfull Hempty. now apply stream_reads_until_empty. Qed.

Lemma stream_yields_the_reads_witness :
  exists g' : generator file,
    exhaust next 3 (stream (opened [Byte.x61; Byte.x62; Byte.x63]) 2)
      = Some ([[Byte.x61; Byte.x62]; [Byte.x63]], g')
    /\ next g' = (None, g').
Proof.
  refine (stream_yields_the_reads
            (opened [Byte.x61; Byte.x62; Byte.x63]) 2 2 _ _).
  - intros [|[|k]] Hk; [vm_compute; discriminate | vm_compute; discriminate | lia].
  - reflexivity.
Defined.

(** ** Regular files: cursor and content *)

Lemma file_at_eof (f : file) (size : Z) :
  remaining f = [] -> file_read f size = ([], f).
Proof.
  intros Heof. unfold file_read. rewrite Heof, firstn_nil.
  destruct (size <? 0); cbn [length]; destruct f as [c p]; cbn [content pos];
    now rewrite Nat.add_0_r.
Qed.

Lemma remaining_advance (f : file) (k : nat) :
  remaining {| content := content f; pos := pos f + k |}
  = skipn k (remaining f).
Proof.
  unfold remaining. cbn [content pos].
  now rewrite Nat.add_comm, <- skipn_skipn.
Qed.

(** A read returns the head of what remains and leaves the rest: nothing is
    lost between the two. *)
Lemma file_read_split (f : file) (size : Z) :
  fst (file_read f size) ++ remaining (snd (file_read f size)) = remaining f.
Proof.
  unfold file_read. cbn [fst snd]. rewrite remaining_advance.
  destruct (size <? 0).
  - now rewrite skipn_all, app_nil_r.
  - rewrite length_firstn.
    destruct (Nat.le_ge_cases (Z.to_nat size) (length (remaining f))) as [L|L].
    + rewrite Nat.min_l by exact L. apply firstn_skipn.
    + rewrite Nat.min_r by exact L.
      now rewrite skipn_all, app_nil_r, firstn_all2.
Qed.

(** The read number [k] of a file returns the bytes from offset
    [k * chunk_size] on, [chunk_size] of them or as many as are left. *)
Lemma nth_read_file (k : nat) (chunk_size : Z) :
  0 < chunk_size ->
  forall f : file,
    nth_read k f chunk_size
    = firstn (Z.to_nat chunk_size)
             (skipn (k * Z.to_nat chunk_size) (remaining f)).
Proof.
  intros HC. induction k as [|k IH]; intros f.
  - cbn [nth_read Nat.mul skipn]. apply (file_read_spec f chunk_size HC).
  - rewrite nth_read_succ, IH. cbn [read file_FileLike].
    rewrite (proj2 (file_read_spec f chunk_size HC)), skipn_skipn.
    do 2 f_equal. cbn [Nat.mul]. lia.
Qed.

Section IteratorSplit.
Context {G A : Type} (step : G -> option A * G).

(** Asking for as many items as the iteration has steps gives all the
    items. *)
Lemma exhaust_pull (fuel : nat) (g g' : G) (items : list A) :
  exhaust step fuel g = Some (items, g') -> pull step fuel g = (items, g').
Proof.
  revert g items. induction fuel as [|fuel IH]; intros g items E;
    [discriminate|].
  cbn [exhaust pull] in *. destruct (step g) as [[a|] g1].
  - destruct (exhaust step fuel g1) as [[rest g2]|] eqn:E1; [|discriminate].
    injection E as <- <-. now rewrite (IH g1 rest E1).
  - now injection E as <- <-.
Qed.
End IteratorSplit.

(** At every point of the iteration over a file, the bytes yielded so far
    followed by the bytes not yet read are the bytes that remained at the
    start, the content is untouched and the cursor has advanced by the
    number of bytes yielded. *)
Lemma pull_file_invariant (n : nat) (chunk_size : Z) :
  forall f : file,
    concat (fst (pull next n (Suspended f chunk_size)))
      ++ remaining (file_of (snd (pull next n (Suspended f chunk_size))))
      = remaining f /\
    content (file_of (snd (pull next n (Suspended f chunk_size))))
      = content f /\
    pos (file_of (snd (pull next n (Suspended f chunk_size))))
      = (pos f + length (concat (fst (pull next n (Suspended f chunk_size)))))%nat.
Proof.
  induction n as [|n IH]; intros f.
  - cbn. rewrite Nat.add_0_r. auto.
  - cbn [pull next read file_FileLike].
    pose proof (file_read_split f chunk_size) as Hsplit.
    assert (Hc : content (snd (file_read f chunk_size)) = content f)
      by reflexivity.
    assert (Hp : pos (snd (file_read f chunk_size))
                 = (pos f + length (fst (file_read f chunk_size)))%nat)
      by reflexivity.
    destruct (file_read f chunk_size) as [data f1]. cbn [fst snd] in *.
    destruct data as [|d data']; cbn [not_].
    + cbn [fst snd concat file_of app length]. rewrite Hp. cbn [length].
      rewrite Nat.add_0_r. auto.
    + destruct (IH f1) as (I1 & I2 & I3).
      destruct (pull next n (Suspended f1 chunk_size)) as [rest g2].
      cbn [fst snd concat] in *.
      split; [|split].
      * rewrite <- app_assoc, I1. exact Hsplit.
      * congruence.
      * rewrite I3, Hp, length_app. lia.
Qed.

(** X2.  Reading a file of N bytes in chunks of C > 0 bytes takes one call
    of [read] for each chunk and one more, the empty read that ends the
    loop: the ceiling of N / C, plus one, also when C divides N. *)
Theorem stream_read_count (b : bytes) (chunk_size : Z) (fuel : nat) :
  0 < chunk_size ->
  (length b < fuel)%nat ->
  exists (yielded : list bytes) (f' : file) (n : nat),
    exhaust next fuel
      (stream {| wrapped := opened b; reads := 0 |} chunk_size)
    = Some (yielded, Returned {| wrapped := f'; reads := n |}) /\
    concat yielded = b /\
    Z.of_nat n = ceil_div (len b) chunk_size + 1.
Proof.
  intros HC Hfuel.
  destruct (stream_remaining chunk_size fuel (opened b) HC Hfuel)
    as (ys & f' & E & _ & Hcat & Hcount & _).
  change (remaining (opened b)) with b in *.
  exists ys, f', (0 + length ys + 1)%nat.
  split; [now apply exhaust_counting|]. split; [exact Hcat|].
  rewrite <- Hcount. unfold len. lia.
Qed.

Lemma stream_read_count_witness :
  exists (yielded : list bytes) (f' : file) (n : nat),
    exhaust next 5
      (stream {| wrapped := opened [Byte.x01; Byte.x02; Byte.x03; Byte.x04];
                 reads := 0 |} 2)
    = Some (yielded, Returned {| wrapped := f'; reads := n |}) /\
    concat yielded = [Byte.x01; Byte.x02; Byte.x03; Byte.x04] /\
    Z.of_nat n = ceil_div 4 2 + 1.
Proof.
  refine (stream_read_count [Byte.x01; Byte.x02; Byte.x03; Byte.x04] 2 5 _ _).
  - lia.
  - cbn. lia.
Defined.

(** X3.  Chunk number [i] of a file read with chunk size C > 0 is the
    bytes of the file from offset [i * C] on, C of them or as many as are
    left. *)
Theorem stream_chunk_offsets (b : bytes) (chunk_size : Z) (fuel : nat) :
  0 < chunk_size ->
  (length b < fuel)%nat ->
  exists (yielded : list bytes) (g' : generator file),
    exhaust next fuel (stream (opened b) chunk_size) = Some (yielded, g') /\
    forall (i : nat) (chunk : bytes),
      nth_error yielded i = Some chunk ->
      chunk = firstn (Z.to_nat chunk_size)
                     (skipn (i * Z.to_nat chunk_size) b).
Proof.
  intros HC Hfuel.
  assert (Hend : nth_read (length b) (opened b) chunk_size = []).
  { rewrite nth_read_file by exact HC.
    change (remaining (opened b)) with b.
    rewrite skipn_all2; [apply firstn_nil | nia]. }
  destruct (stream_ends_at_empty_read (length b) chunk_size (opened b) Hend)
    as (ys & g' & E & _ & _ & Hnth).
  exists ys, g'. split.
  - apply (exhaust_more_fuel next (S (length b))); [exact E | lia].
  - intros i chunk Hi. rewrite (Hnth i chunk Hi).
    now rewrite nth_read_file.
Qed.

Lemma stream_chunk_offsets_witness :
  exists (yielded : list bytes) (g' : generator file),
    exhaust next 6 (stream (opened [Byte.x01; Byte.x02; Byte.x03;
                                    Byte.x04; Byte.x05]) 2)
      = Some (yielded, g') /\
    forall (i : nat) (chunk : bytes),
      nth_error yielded i = Some chunk ->
      chunk = firstn (Z.to_nat 2)
                (skipn (i * Z.to_nat 2)
                   [Byte.x01; Byte.x02; Byte.x03; Byte.x04; Byte.x05]).
Proof.
  refine (stream_chunk_offsets
            [Byte.x01; Byte.x02; Byte.x03; Byte.x04; Byte.x05] 2 6 _ _).
  - lia.
  - cbn. lia.
Defined.

(** X4.  The iteration is single pass.  After [stream] has been exhausted
    over a file, the content of the file is as it was, the cursor is at the
    end, and a new [stream] over the same file object, with any chunk size,
    yields nothing: a second pass needs the file opened again. *)
Theorem stream_single_pass (b : bytes) (chunk_size : Z) (fuel : nat) :
  0 < chunk_size ->
  (length b < fuel)%nat ->
  exists (yielded : list bytes) (f' : file),
    exhaust next fuel (stream (opened b) chunk_size)
      = Some (yielded, Returned f') /\
    content f' = b /\
    pos f' = length b /\
    forall (chunk_size' : Z) (fuel' : nat),
      exhaust next (S fuel') (stream f' chunk_size')
      = Some ([], Returned f').
Proof.
  intros HC Hfuel.
  destruct (stream_remaining chunk_size fuel (opened b) HC Hfuel)
    as (ys & f' & E & Heof & Hcat & _).
  change (remaining (opened b)) with b in *.
  destruct (pull_file_invariant fuel chunk_size (opened b)) as (_ & Hc & Hp).
  unfold stream in E. rewrite (exhaust_pull next fuel _ _ _ E) in Hc, Hp.
  cbn [fst snd file_of content pos opened] in Hc, Hp.
  exists ys, f'. split; [exact E|]. split; [exact Hc|].
  split; [now rewrite Hp, Hcat|].
  intros chunk_size' fuel'. unfold stream.
  cbn [exhaust next read file_FileLike].
  now rewrite (file_at_eof f' chunk_size' Heof).
Qed.

Lemma stream_single_pass_witness :
  exists (yielded : list bytes) (f' : file),
    exhaust next 4 (stream (opened [Byte.x01; Byte.x02; Byte.x03]) 2)
      = Some (yielded, Returned f') /\
    content f' = [Byte.x01; Byte.x02; Byte.x03] /\
    pos f' = 3%nat /\
    forall (chunk_size' : Z) (fuel' : nat),
      exhaust next (S fuel') (stream f' chunk_size')
      = Some ([], Returned f').
Proof.
  refine (stream_single_pass [Byte.x01; Byte.x02; Byte.x03] 2 4 _ _).
  - lia.
  - cbn. lia.
Defined.

(** X5.  A consumer may stop at any point.  Whatever the chunk size and
    however many chunks have been asked for, the bytes yielded so far
    followed by the bytes not yet read are the bytes of the file, and the
    cursor stands right after the bytes yielded: [stream] never reads
    ahead of what it yields and never drops or repeats a byte. *)
Theorem stream_partial_consumption (b : bytes) (chunk_size : Z) (n : nat) :
  concat (fst (pull next n (stream (opened b) chunk_size)))
    ++ remaining (file_of (snd (pull next n (stream (opened b) chunk_size))))
    = b /\
  content (file_of (snd (pull next n (stream (opened b) chunk_size)))) = b /\
  pos (file_of (snd (pull next n (stream (opened b) chunk_size))))
    = length (concat (fst (pull next n (stream (opened b) chunk_size)))).
Proof. exact (pull_file_invariant n chunk_size (opened b)). Qed.

(** X6.  Consumption can be split.  For any file object, asking the
    generator for [n] chunks gives the first [n] chunks of the full
    iteration, and iterating what is left of the generator afterwards gives
    the remaining chunks and ends in the same state. *)
Theorem stream_split_consumption {F : Type} `{FileLike F}
    (fuel n : nat) (g g' : generator F) (yielded : list bytes) :
  exhaust next fuel g = Some (yielded, g') ->
  fst (pull next n g) = firstn n yielded /\
  exhaust next fuel (snd (pull next n g)) = Some (skipn n yielded, g').
Proof.
  intros E. split; [now apply (pull_exhaust next fuel n g g')|].
  revert fuel g yielded E.
  induction n as [|n IH]; intros fuel g ys E; [exact E|].
  destruct fuel as [|fuel]; [discriminate|].
  cbn [exhaust] in E. cbn [pull].
  destruct (next g) as [[chunk|] g1] eqn:N.
  - destruct (exhaust next fuel g1) as [[rest g2]|] eqn:E1; [|discriminate].
    injection E as <- <-.
    specialize (IH fuel g1 rest E1).
    destruct (pull next n g1) as [got g3]. cbn [snd skipn] in *.
    apply (exhaust_more_fuel next fuel); [exact IH | lia].
  - injection E as <- <-. cbn [snd skipn exhaust].
    now rewrite (next_none_stays g g1 N).
Qed.

Lemma stream_split_consumption_witness :
  fst (pull next 1 (stream (opened [Byte.x01; Byte.x02; Byte.x03]) 2))
    = firstn 1 [[Byte.x01; Byte.x02]; [Byte.x03]] /\
  exhaust next 3
    (snd (pull next 1 (stream (opened [Byte.x01; Byte.x02; Byte.x03]) 2)))
    = Some (skipn 1 [[Byte.x01; Byte.x02]; [Byte.x03]],
            Returned {| content := [Byte.x01; Byte.x02; Byte.x03]; pos := 3 |}).
Proof.
  apply (stream_split_consumption 3 1
           (stream (opened [Byte.x01; Byte.x02; Byte.x03]) 2)).
  reflexivity.
Defined.

(** X7.  Chunk sizes that are not positive.  With chunk size 0 the first
    read is empty, so [stream] yields nothing and leaves the file where it
    was, whatever the file holds.  With a negative chunk size the first read
    returns all that remains, so a file with bytes left is yielded as one
    chunk. *)
Theorem stream_nonpositive_chunk_size :
  (forall (f : file) (fuel : nat),
     exhaust next (S fuel) (stream f 0) = Some ([], Returned f)) /\
  (forall (f : file) (chunk_size : Z) (fuel : nat),
     chunk_size < 0 ->
     remaining f <> [] ->
     exists f' : file,
       exhaust next (S (S fuel)) (stream f chunk_size)
         = Some ([remaining f], Returned f') /\
       remaining f' = []).
Proof.
  split.
  - intros f fuel. unfold stream. cbn [exhaust next read file_FileLike].
    unfold file_read. cbn. destruct f as [c p]. cbn [content pos].
    now rewrite Nat.add_0_r.
  - intros f chunk_size fuel HC Hrem. unfold stream.
    remember (S fuel) as fuel1. cbn [exhaust next read file_FileLike].
    pose proof (file_read_split f chunk_size) as Hsplit.
    assert (Hdata : fst (file_read f chunk_size) = remaining f).
    { unfold file_read. destruct (Z.ltb_spec chunk_size 0); [reflexivity | lia]. }
    destruct (file_read f chunk_size) as [data f1]. cbn [fst snd] in *.
    subst data. destruct (remaining f) as [|x rest] eqn:R; [congruence|].
    cbn [not_]. subst fuel1.
    assert (Heof : remaining f1 = []).
    { apply (app_inv_head (x :: rest)). now rewrite app_nil_r. }
    cbn [exhaust next read file_FileLike].
    rewrite (file_at_eof f1 chunk_size Heof). cbn [not_].
    exists f1. split; [reflexivity | exact Heof].
Qed.

(** * Further properties of [streaming_annotate] *)

Lemma payloads_chunks (sent : list bytes) :
  payloads (map input_content sent) = sent.
Proof. induction sent as [|c sent IH]; cbn; [reflexivity | now rewrite IH]. Qed.

Lemma Forall_firstn_of {A : Type} (P : A -> Prop) (n : nat) (l : list A) :
  Forall P l -> Forall P (firstn n l).
Proof.
  intros H. revert n. induction H as [|x l Hx _ IH]; intros [|n]; cbn;
    constructor; auto.
Qed.

(** The chunks of a freshly opened file are not empty and not longer than
    the chunk size. *)
Lemma stream_opened_bounds (b : bytes) (chunk_size : Z) :
  0 < chunk_size ->
  exists (yielded : list bytes) (f' : file),
    exhaust next (S (length b)) (stream (opened b) chunk_size)
      = Some (yielded, Returned f') /\
    Forall (fun chunk => 0 < len chunk <= chunk_size) yielded.
Proof.
  intros HC.
  destruct (stream_remaining chunk_size (S (length b)) (opened b) HC)
    as (ys & f' & E & _ & _ & _ & Hfull & Hne & Hlast); [cbn; lia|].
  exists ys, f'. split; [exact E|].
  destruct ys as [|y ys']; [constructor|].
  apply (Forall_removelast_last _ _ []); [discriminate | |].
  - eapply Forall_impl; [|exact Hfull]. cbn beta. intros c Hc. lia.
  - rewrite Hlast by discriminate.
    pose proof (Z.mod_pos_bound (len (remaining (opened b))) chunk_size HC).
    destruct (Z.eqb_spec (len (remaining (opened b)) mod chunk_size) 0); lia.
Qed.

(** X8.  Whatever the file and whatever the transport asks for, every chunk
    request of a run carries at least one byte and at most 5 * 1024 * 1024
    bytes, which is under the 10 MB that the comment in the code recommends
    as the limit. *)
Theorem chunk_requests_bounded (env : Environment) (path : string)
    (b : bytes) (s : State) :
  filesystem env path = Some b ->
  exists call : rpc_call,
    calls (snd (streaming_annotate env path s)) = calls s ++ [call] /\
    Forall (fun chunk =>
              0 < len chunk /\ len chunk <= 5 * 1024 * 1024 /\
              len chunk < 10 * 1000 * 1000)
           (payloads (outbound call)).
Proof.
  intros Hfs.
  destruct (stream_opened_bounds b (5 * 1024 * 1024)) as (ys & f' & E & Hb);
    [lia|].
  rewrite (streaming_annotate_readable env path b s Hfs). cbn [snd calls].
  eexists. split; [reflexivity|]. cbn [outbound].
  unfold shot_config_request. cbn [payloads]. rewrite payloads_chunks.
  rewrite (pull_exhaust next _ (demand env) _ _ _ E).
  apply Forall_firstn_of. eapply Forall_impl; [|exact Hb].
  cbn beta. intros c Hc. lia.
Qed.

Lemma chunk_requests_bounded_witness :
  exists call : rpc_call,
    calls (snd (streaming_annotate
                  (small_env [Byte.x01; Byte.x02; Byte.x03]) "video.mp4"
                  initial_state)) = calls initial_state ++ [call] /\
    Forall (fun chunk =>
              0 < len chunk /\ len chunk <= 5 * 1024 * 1024 /\
              len chunk < 10 * 1000 * 1000)
           (payloads (outbound call)).
Proof.
  apply (chunk_requests_bounded (small_env [Byte.x01; Byte.x02; Byte.x03])
           "video.mp4" [Byte.x01; Byte.x02; Byte.x03] initial_state).
  reflexivity.
Defined.

(** X9.  The run reads from the file exactly what it sends.  Whatever the
    transport asks for and however the session ends, the content of the
    chunk requests sent, followed by the bytes the file object has not read,
    is the content of the file; the cursor of the file object, which is
    closed, stands right after the bytes sent. *)
Theorem sent_bytes_are_read_bytes (env : Environment) (path : string)
    (b : bytes) (s : State) :
  filesystem env path = Some b ->
  exists (call : rpc_call) (f : file),
    calls (snd (streaming_annotate env path s)) = calls s ++ [call] /\
    files (snd (streaming_annotate env path s))
      = files s ++ [{| fobj := f; closed := true |}] /\
    concat (payloads (outbound call)) ++ remaining f = b /\
    content f = b /\
    pos f = length (concat (payloads (outbound call))).
Proof.
  intros Hfs.
  rewrite (streaming_annotate_readable env path b s Hfs). cbn [snd calls files].
  eexists _, _. split; [reflexivity|]. split; [reflexivity|]. cbn [outbound].
  unfold shot_config_request. cbn [payloads]. rewrite payloads_chunks.
  exact (pull_file_invariant (demand env) (5 * 1024 * 1024) (opened b)).
Qed.

Lemma sent_bytes_are_read_bytes_witness :
  exists (call : rpc_call) (f : file),
    calls (snd (streaming_annotate
                  (impatient_env [Byte.x01; Byte.x02; Byte.x03]) "video.mp4"
                  initial_state)) = calls initial_state ++ [call] /\
    files (snd (streaming_annotate
                  (impatient_env [Byte.x01; Byte.x02; Byte.x03]) "video.mp4"
                  initial_state))
      = files initial_state ++ [{| fobj := f; closed := true |}] /\
    concat (payloads (outbound call)) ++ remaining f
      = [Byte.x01; Byte.x02; Byte.x03] /\
    content f = [Byte.x01; Byte.x02; Byte.x03] /\
    pos f = length (concat (payloads (outbound call))).
Proof.
  apply (sent_bytes_are_read_bytes
           (impatient_env [Byte.x01; Byte.x02; Byte.x03]) "video.mp4"
           [Byte.x01; Byte.x02; Byte.x03] initial_state).
  reflexivity.
Defined.

(** X10.  A transport failure after responses that arrived in time: the
    exception is not caught, so the process exits with status 1 and shows
    that failure; the lines of all the responses that arrived stay printed
    after the header; the file object is closed; and the run has made one
    remote invocation and no second attempt. *)
Theorem transport_failure_keeps_partial_output (env : Environment)
    (path : string) (b : bytes) (idle : Z) (details : string) :
  filesystem env path = Some b ->
  Forall (fun p => fst p <= 10800) (inbound env) ->
  closing env = (idle, Some details) ->
  idle <= 10800 ->
  exit_status (main env path) = 1 /\
  traceback (main env path) = Some (TransportFailure details) /\
  stdout (final (main env path))
    = (header ++ printed (shot_lines (map snd (inbound env))))%string /\
  open_files (final (main env path)) = [] /\
  length (calls (final (main env path))) = 1%nat.
Proof.
  intros Hfs Hin Hclose Hidle. unfold main.
  rewrite (streaming_annotate_readable env path b initial_state Hfs).
  rewrite session_end_on_time by exact Hin.
  rewrite delivered_on_time by exact Hin.
  rewrite Hclose. cbn [fst snd].
  destruct (Z.ltb_spec 10800 idle); [lia|].
  cbn [exit_status traceback final stdout files calls initial_state].
  repeat split.
Qed.

Lemma transport_failure_keeps_partial_output_witness :
  exit_status (main failing_env "video.mp4") = 1 /\
  traceback (main failing_env "video.mp4")
    = Some (TransportFailure "connection reset") /\
  stdout (final (main failing_env "video.mp4"))
    = (newline ++ "Reading response." ++ newline
       ++ "Shot: 0.0s to 4.170837s" ++ newline
       ++ "Shot: 4.204204s to 7.107107s" ++ newline)%string.
Proof.
  destruct (transport_failure_keeps_partial_output failing_env "video.mp4"
              [Byte.x01; Byte.x02; Byte.x03] 1 "connection reset")
    as (Hexit & Htb & Hout & _).
  - reflexivity.
  - repeat constructor; cbn; lia.
  - reflexivity.
  - lia.
  - split; [exact Hexit|]. split; [exact Htb|].
    rewrite Hout. vm_compute. reflexivity.
Defined.

(** ** Exit status and output of the process *)




Lemma delivered_prefix (deadline : Z)
    (pending : list (Z * StreamingAnnotateVideoResponse)) :
  exists rest, map snd pending = delivered deadline pending ++ rest.
Proof.
  induction pending as [|[idle r] pending IH]; cbn [delivered map snd].
  - now exists [].
  - destruct (deadline <? idle).
    + now eexists.
    + destruct IH as [rest ->]. now exists rest.
Qed.

(** X12.  However a run ends, what it has printed is well formed: nothing
    at all when the file cannot be opened, and otherwise the header followed
    by the first lines of the full report, the lines of all the responses
    the remote side sent, in order.  No line is printed before the header
    and none out of order. *)
Theorem output_is_header_and_report_prefix (env : Environment)
    (path : string) (s : State) :
  (filesystem env path = None ->
   stdout (snd (streaming_annotate env path s)) = stdout s) /\
  (filesystem env path <> None ->
   exists lines more : list string,
     stdout (snd (streaming_annotate env path s))
       = (stdout s ++ header ++ printed lines)%string /\
     shot_lines (map snd (inbound env)) = lines ++ more).
Proof.
  split.
  - intros Hfs. now rewrite (streaming_annotate_unreadable env path s Hfs).
  - intros Hfs. destruct (filesystem env path) as [b|] eqn:E; [|congruence].
    rewrite (streaming_annotate_readable env path b s E). cbn [snd stdout].
    destruct (delivered_prefix 10800 (inbound env)) as [rest Hrest].
    exists (shot_lines (delivered 10800 (inbound env))), (shot_lines rest).
    split; [reflexivity|].
    rewrite Hrest. unfold shot_lines. apply flat_map_app.
Qed.

(** X13.  What a run prints and how it ends depend on the responses only:
    two runs over different files, whatever the transport takes from them,
    print the same text and end the same way when the remote side behaves
    the same. *)
Theorem output_independent_of_file (env1 env2 : Environment)
    (path1 path2 : string) (b1 b2 : bytes) (s : State) :
  filesystem env1 path1 = Some b1 ->
  filesystem env2 path2 = Some b2 ->
  inbound env1 = inbound env2 ->
  closing env1 = closing env2 ->
  fst (streaming_annotate env1 path1 s) = fst (streaming_annotate env2 path2 s) /\
  stdout (snd (streaming_annotate env1 path1 s))
    = stdout (snd (streaming_annotate env2 path2 s)).
Proof.
  intros H1 H2 Hin Hclose.
  rewrite (streaming_annotate_readable env1 path1 b1 s H1).
  rewrite (streaming_annotate_readable env2 path2 b2 s H2).
  cbn [fst snd stdout]. now rewrite Hin, Hclose.
Qed.

Lemma output_independent_of_file_witness :
  fst (streaming_annotate (small_env [Byte.x01; Byte.x02]) "a.mp4" initial_state)
    = fst (streaming_annotate (impatient_env [Byte.x07]) "b.mp4" initial_state) /\
  stdout (snd (streaming_annotate (small_env [Byte.x01; Byte.x02]) "a.mp4"
                 initial_state))
    = stdout (snd (streaming_annotate (impatient_env [Byte.x07]) "b.mp4"
                     initial_state)).
Proof.
  apply (output_independent_of_file
           (small_env [Byte.x01; Byte.x02]) (impatient_env [Byte.x07])
           "a.mp4" "b.mp4" [Byte.x01; Byte.x02] [Byte.x07] initial_state);
    reflexivity.
Defined.

(** X14.  A run only adds to the state it starts from: the text already on
    standard output, the file objects already on the heap, open or closed,
    and the record of earlier remote invocations are all kept as they were,
    and at most one invocation is added. *)
Theorem run_only_appends (env : Environment) (path : string) (s : State) :
  exists (text : string) (opened_files : list file_object)
         (made : list rpc_call),
    stdout (snd (streaming_annotate env path s)) = (stdout s ++ text)%string /\
    files (snd (streaming_annotate env path s)) = files s ++ opened_files /\
    calls (snd (streaming_annotate env path s)) = calls s ++ made /\
    (length made <= 1)%nat /\
    (length opened_files <= 1)%nat.
Proof.
  destruct (filesystem env path) as [b|] eqn:Hfs.
  - rewrite (streaming_annotate_readable env path b s Hfs).
    cbn [snd stdout files calls].
    eexists _, [_], [_]. repeat split; cbn; lia.
  - rewrite (streaming_annotate_unreadable env path s Hfs). cbn [snd].
    exists EmptyString, [], [].
    rewrite append_nil_r, !app_nil_r. repeat split; cbn; lia.
Qed.

(** ** The lines of the output *)

Lemma one_line_app (a b : string) :
  one_line (a ++ b) = one_line a && one_line b.
Proof.
  induction a as [|c a IH]; cbn [append one_line]; [reflexivity|].
  now rewrite IH, andb_assoc.
Qed.

Lemma one_line_zeros (n : nat) : one_line (zeros n) = true.
Proof. induction n as [|n IH]; [reflexivity | exact IH]. Qed.

Lemma one_line_substring (text : string) :
  one_line text = true ->
  forall n m, one_line (substring n m text) = true.
Proof.
  induction text as [|c text IH]; intros Hl n m.
  - destruct n, m; reflexivity.
  - cbn [one_line] in Hl. apply andb_prop in Hl. destruct Hl as [Hc Ht].
    destruct n as [|n]; [destruct m as [|m]|]; cbn [substring one_line].
    + reflexivity.
    + now rewrite Hc, IH.
    + now apply IH.
Qed.

Lemma one_line_uint (d : Decimal.uint) :
  one_line (NilEmpty.string_of_uint d) = true.
Proof. induction d; cbn; auto. Qed.

Lemma one_line_digits_string (n : Z) : one_line (digits_string n) = true.
Proof.
  unfold digits_string, NilZero.string_of_int, NilZero.string_of_uint.
  destruct (Z.to_int n) as [d|d]; destruct d; cbn [one_line];
    try reflexivity; apply (one_line_uint (_ d)) || apply one_line_uint.
Qed.

Lemma one_line_format_fixed (ds : string) (decpt : Z) :
  one_line ds = true -> one_line (format_fixed ds decpt) = true.
Proof.
  intros Hds. unfold format_fixed.
  destruct (decpt <=? 0); [|destruct (slen ds <=? decpt)];
    rewrite ?one_line_app, ?one_line_zeros, ?Hds,
            ?(one_line_substring ds Hds); reflexivity.
Qed.

Lemma one_line_format_exp (ds : string) (decpt : Z) :
  one_line ds = true -> one_line (format_exp ds decpt) = true.
Proof.
  intros Hds. unfold format_exp.
  rewrite !one_line_app, one_line_digits_string.
  assert (Hm : one_line
                 match ds with
                 | EmptyString => EmptyString
                 | String d EmptyString => String d EmptyString
                 | String d (String _ _ as rest) => String d ("." ++ rest)
                 end = true).
  { destruct ds as [|d [|d' rest]]; exact Hds. }
  rewrite Hm.
  destruct (decpt - 1 <? 0); destruct (Z.abs (decpt - 1) <? 10); reflexivity.
Qed.

Lemma one_line_format_float_short (window : Z) (d : decimal) :
  one_line (format_float_short window d) = true.
Proof.
  unfold format_float_short. destruct (strip_zeros d) as [n p].
  destruct ((slen (digits_string n) + p <=? -4)
            || (window <? slen (digits_string n) + p)).
  - apply one_line_format_exp, one_line_digits_string.
  - apply one_line_format_fixed, one_line_digits_string.
Qed.

Lemma one_line_signed (s : bool) (text : string) :
  one_line text = true -> one_line (signed s text) = true.
Proof. intros H. destruct s; cbn; exact H. Qed.

(** The text of a float never holds a newline. *)
Lemma one_line_float_str (x : float) : one_line (float_str x) = true.
Proof.
  destruct x as [s|s| |s m e]; cbn [float_str];
    try (apply one_line_signed; reflexivity); try reflexivity.
  destruct (fraction m e) as [a b].
  apply one_line_signed, one_line_format_float_short.
Qed.

Lemma one_line_shot_line (annotation : VideoSegment) :
  one_line (shot_line annotation) = true.
Proof.
  unfold shot_line. now rewrite !one_line_app, !one_line_float_str.
Qed.

Lemma output_lines_from_line (line : string) :
  one_line line = true ->
  forall current rest,
    output_lines_from current (line ++ newline ++ rest)
    = (current ++ line)%string :: output_lines_from EmptyString rest.
Proof.
  induction line as [|c line IH]; intros Hl current rest.
  - cbn. now rewrite append_nil_r.
  - cbn [one_line] in Hl. apply andb_prop in Hl. destruct Hl as [Hc Ht].
    cbn [append output_lines_from].
    apply negb_true_iff in Hc. rewrite Hc.
    rewrite (IH Ht), append_assoc. reflexivity.
Qed.

Lemma output_lines_printed (lines : list string) :
  Forall (fun line => one_line line = true) lines ->
  output_lines (printed lines) = lines.
Proof.
  unfold output_lines. induction 1 as [|line lines Hl _ IH]; [reflexivity|].
  cbn [printed]. now rewrite (output_lines_from_line line Hl), IH.
Qed.

Lemma final_main (env : Environment) (path : string) :
  final (main env path) = snd (streaming_annotate env path initial_state).
Proof.
  unfold main.
  now destruct (streaming_annotate env path initial_state) as [[[]|e] s].
Qed.

Lemma length_shot_lines (responses : list StreamingAnnotateVideoResponse) :
  length (shot_lines responses)
  = list_sum (map (fun response =>
                     length (shot_annotations (annotation_results response)))
                  responses).
Proof.
  unfold shot_lines. induction responses as [|r rs IH]; [reflexivity|].
  cbn [flat_map map list_sum]. now rewrite length_app, length_map, IH.
Qed.

(** X15.  Read line by line, the output of a run on a readable file is an
    empty line, the line [Reading response.], and then one line for each
    annotation of each response delivered, in order, and nothing else: as
    many lines as there are annotations, plus two.  No annotation is spread
    over two lines, whatever its offsets. *)
Theorem output_lines_of_run (env : Environment) (path : string) (b : bytes) :
  filesystem env path = Some b ->
  output_lines (stdout (final (main env path)))
    = EmptyString :: "Reading response."%string
      :: shot_lines (delivered 10800 (inbound env)) /\
  length (output_lines (stdout (final (main env path))))
    = (2 + list_sum
             (map (fun response =>
                     length (shot_annotations (annotation_results response)))
                  (delivered 10800 (inbound env))))%nat.
Proof.
  intros Hfs. rewrite final_main.
  rewrite (streaming_annotate_readable env path b initial_state Hfs).
  cbn [snd stdout initial_state append].
  assert (Hlines :
    output_lines
      (header ++ printed (shot_lines (delivered 10800 (inbound env))))
    = EmptyString :: "Reading response."%string
      :: shot_lines (delivered 10800 (inbound env))).
  { unfold header, output_lines.
    change (newline ++ "Reading response." ++ newline)%string
      with ("" ++ newline ++ ("Reading response." ++ newline))%string.
    rewrite !append_assoc.
    rewrite (output_lines_from_line "" eq_refl).
    rewrite (output_lines_from_line "Reading response." eq_refl).
    cbn [append]. do 2 f_equal.
    apply output_lines_printed.
    unfold shot_lines. apply Forall_flat_map, Forall_forall.
    intros r _. apply Forall_map, Forall_forall.
    intros a _. apply one_line_shot_line. }
  rewrite Hlines. split; [reflexivity|].
  cbn [length]. now rewrite length_shot_lines.
Qed.

Lemma output_lines_of_run_witness :
  output_lines (stdout (final (main sample_env "video.mp4")))
    = [EmptyString; "Reading response."%string;
       "Shot: 0.0s to 4.170837s"%string;
       "Shot: 4.204204s to 7.107107s"%string;
       "Shot: 7.140473s to 11.778445s"%string].
Proof.
  rewrite (proj1 (output_lines_of_run sample_env "video.mp4"
                    [Byte.x01; Byte.x02; Byte.x03; Byte.x04; Byte.x05]
                    eq_refl)).
  vm_compute. reflexivity.
Defined.
